(** * subtitle-generator: the SRT writer of [script.py]

    A shallow embedding of [format_timestamp], [write_srt] (with its inner
    [is_meaningful]), of the tail of [main] that decides the exit status
    and of the default output path, followed by the properties of the
    written document.

    Conventions of the embedding.
    - A Python [str] is a [string] whose characters are code points below
      256 (the Latin-1 range); [isspace] and [lower] are Python's tables
      restricted to that range.
    - A Python [float] is a primitive binary64 [float]; the integer that
      Python computes from one ([math.modf], [round], [int]) is read off its
      mantissa and exponent.
    - An exception is a [Raise] result; the file system is a finite map from
      paths to contents; what is printed is a list of events. [write_srt]
      and [main_tail] take the open of the output to succeed;
      [write_srt_in] and [main_tail_in] let the environment decide. *)

From Stdlib Require Import ZArith List String Ascii Bool Lia DecimalString DecimalN.
From Stdlib Require Import PrimFloat SpecFloat FloatOps.
From stdpp Require Import gmap strings sorting.

Set Warnings "-inexact-float".
Local Open Scope Z_scope.

(* ================================================================= *)
(** ** Results of fallible code *)

Inductive exn : Set :=
| OverflowError
| ValueError
| OSError.

Inductive result (A : Type) : Type :=
| Ok (a : A)
| Raise (e : exn).
Arguments Ok {A} a.
Arguments Raise {A} e.

Definition bind {A B : Type} (r : result A) (k : A -> result B) : result B :=
  match r with
  | Ok a => k a
  | Raise e => Raise e
  end.

Notation "'let*' x ':=' r 'in' k" := (bind r (fun x => k))
  (at level 10, x name, r at level 100, k at level 200).

Definition is_ok {A : Type} (r : result A) : bool :=
  match r with
  | Ok _ => true
  | Raise _ => false
  end.

(* ================================================================= *)
(** ** Floating point: what Python reads off a binary64 value *)

Module Float.

(** The value of a finite float is [(-1)^s * m * 2^e]. The integer part
    (towards zero) of its magnitude: *)
Definition int_part (m : positive) (e : Z) : Z :=
  if 0 <=? e then Z.shiftl (Zpos m) e else Z.shiftr (Zpos m) (- e).

(** The mantissa of the fractional part, at the same exponent. *)
Definition frac_mantissa (m : positive) (e : Z) : Z :=
  if 0 <=? e then 0 else Z.land (Zpos m) (Z.ones (- e)).

(** [int(x)]: truncation towards zero. *)
Definition to_int (x : float) : result Z :=
  match Prim2SF x with
  | S754_zero _ => Ok 0
  | S754_finite s m e => Ok (cond_Zopp s (int_part m e))
  | S754_infinity _ => Raise OverflowError
  | S754_nan => Raise ValueError
  end.

(** [math.modf(x)]: the fractional part, as a float, and the integer
    part; both are exact. *)
Definition modf (x : float) : result (float * Z) :=
  match Prim2SF x with
  | S754_zero _ => Ok (x, 0)
  | S754_finite s m e =>
      let fracpart :=
        match frac_mantissa m e with
        | Zpos p => SF2Prim (S754_finite s p e)
        | _ => if s then neg_zero else zero
        end in
      Ok (fracpart, cond_Zopp s (int_part m e))
  | S754_infinity _ => Raise OverflowError
  | S754_nan => Raise ValueError
  end.

(** [round(x)] with no digits: to the nearest integer, ties to even. *)
Definition round_half_even (x : float) : result Z :=
  match Prim2SF x with
  | S754_zero _ => Ok 0
  | S754_finite s m e =>
      let q := int_part m e in
      let r := frac_mantissa m e in
      let half := if 0 <=? e then 1 else Z.shiftl 1 (- e - 1) in
      let up :=
        match r ?= half with
        | Lt => false
        | Gt => true
        | Eq => Z.odd q
        end in
      Ok (cond_Zopp s (if up then q + 1 else q))
  | S754_infinity _ => Raise OverflowError
  | S754_nan => Raise ValueError
  end.

(** [a / b] on Python integers ([b > 0]): the correctly rounded quotient. *)
Definition truediv (a b : Z) : float :=
  match a, b with
  | Zpos pa, Zpos pb =>
      SF2Prim (SFdiv prec emax (S754_finite false pa 0) (S754_finite false pb 0))
  | Zneg pa, Zpos pb =>
      SF2Prim (SFdiv prec emax (S754_finite true pa 0) (S754_finite false pb 0))
  | _, _ => zero
  end.

End Float.

(* ================================================================= *)
(** ** [datetime.timedelta], as far as [format_timestamp] uses it *)

(** A Python number: [format_timestamp] sees the [int] 0 and floats. *)
Inductive num : Set :=
| Int (n : Z)
| Flt (x : float).

(** [max(0, seconds)]: [seconds] when [seconds > 0] holds, otherwise the
    first argument, the [int] 0 (also for a NaN, which compares false). *)
Definition max0 (seconds : num) : num :=
  match seconds with
  | Int n => if 0 <? n then Int n else Int 0
  | Flt x => if PrimFloat.ltb 0 x then Flt x else Int 0
  end.

Record timedelta : Set := mk_timedelta {
  days : Z;
  seconds : Z;
  microseconds : Z
}.

Definition us_per_second : Z := 1000000.
Definition us_per_day : Z := 86400 * us_per_second.
Definition max_delta_days : Z := 999999999.

(** Normalisation of a count of microseconds; more than 999999999 days in
    either direction is an [OverflowError]. *)
Definition microseconds_to_delta (us : Z) : result timedelta :=
  let d := us / us_per_day in
  let r := us mod us_per_day in
  if (Z.abs d <=? max_delta_days)
  then Ok (mk_timedelta d (r / us_per_second) (r mod us_per_second))
  else Raise OverflowError.

(** [timedelta(seconds=n)]: a float contributes its integer part in whole
    seconds and its fractional part rounded to the nearest microsecond. *)
Definition timedelta_of_seconds (n : num) : result timedelta :=
  match n with
  | Int k => microseconds_to_delta (k * us_per_second)
  | Flt x =>
      let* p := Float.modf x in
      let* us := Float.round_half_even (PrimFloat.mul (fst p) 1000000%float) in
      microseconds_to_delta (snd p * us_per_second + us)
  end.

Definition delta_to_microseconds (td : timedelta) : Z :=
  (days td * 86400 + seconds td) * us_per_second + microseconds td.

(** [td.total_seconds()] *)
Definition total_seconds (td : timedelta) : float :=
  Float.truediv (delta_to_microseconds td) us_per_second.

(* ================================================================= *)
(** ** Formatting integers *)

(** [str(n)] for [n >= 0]. *)
Definition str_of_Z (n : Z) : string :=
  NilEmpty.string_of_uint (N.to_uint (Z.to_N n)).

Fixpoint zeros (k : nat) : string :=
  match k with
  | O => EmptyString
  | S k' => String "0" (zeros k')
  end.

(** [f"{n:0wd}"] for [n >= 0]: at least [w] digits, padded with zeros. *)
Definition format_0d (w : nat) (n : Z) : string :=
  let s := str_of_Z n in
  (zeros (w - String.length s) +:+ s)%string.

(* ================================================================= *)
(** ** [format_timestamp] *)

Definition total_ms_of (seconds : option float) : result Z :=
  let seconds := match seconds with None => Int 0 | Some x => Flt x end in
  let* td := timedelta_of_seconds (max0 seconds) in
  Float.to_int (PrimFloat.mul (total_seconds td) 1000%float).

Definition render_ms (total_ms : Z) : string :=
  let hrs := total_ms / 3600000 in
  let rem := total_ms mod 3600000 in
  let mins := rem / 60000 in
  let rem := rem mod 60000 in
  let secs := rem / 1000 in
  let ms := rem mod 1000 in
  (format_0d 2 hrs +:+ ":" +:+ format_0d 2 mins +:+ ":" +:+ format_0d 2 secs
     +:+ "," +:+ format_0d 3 ms)%string.

Definition format_timestamp (seconds : option float) : result string :=
  let* total_ms := total_ms_of seconds in
  Ok (render_ms total_ms).

(* ================================================================= *)
(** ** Text: [str.strip], [str.lower], truthiness *)

Local Open Scope nat_scope.

(** [c.isspace()] for a code point below 256: TAB..CR, FS..US, space,
    NEL (0x85) and NBSP (0xa0). *)
Definition isspace (c : ascii) : bool :=
  let n := nat_of_ascii c in
  ((9 <=? n) && (n <=? 13)) || ((28 <=? n) && (n <=? 32))
  || (n =? 133) || (n =? 160).

(** [c.lower()] for a code point below 256: A..Z and the accented capitals
    0xc0..0xde (without the multiplication sign 0xd7) move up by 32. *)
Definition lower_char (c : ascii) : ascii :=
  let n := nat_of_ascii c in
  if ((65 <=? n) && (n <=? 90))
     || ((192 <=? n) && (n <=? 222) && negb (n =? 215))
  then ascii_of_nat (n + 32)
  else c.

Fixpoint lower (s : string) : string :=
  match s with
  | EmptyString => EmptyString
  | String c r => String (lower_char c) (lower r)
  end.

Fixpoint lstrip (s : string) : string :=
  match s with
  | EmptyString => EmptyString
  | String c r => if isspace c then lstrip r else s
  end.

Fixpoint rstrip (s : string) : string :=
  match s with
  | EmptyString => EmptyString
  | String c r =>
      match rstrip r with
      | EmptyString => if isspace c then EmptyString else String c EmptyString
      | r' => String c r'
      end
  end.

Definition strip (s : string) : string := rstrip (lstrip s).

(** Truth value of a [str]: false exactly for the empty one. *)
Definition truthy (s : string) : bool :=
  match s with
  | EmptyString => false
  | String _ _ => true
  end.

(** [x in xs] on a list of strings compares with [==]. *)
Definition str_in (x : string) (xs : list string) : bool :=
  existsb (String.eqb x) xs.

(* ================================================================= *)
(** ** [write_srt] *)

Definition fillers : list string :=
  ["aaaa."; "hmm."; "mmm."; "..."; "..."]%string.

Definition is_meaningful (text : string) : bool :=
  if negb (truthy text) || (String.length (strip text) <? 3) then false
  else if str_in (lower (strip text)) fillers then false
  else true.

Record Segment : Set := mk_Segment {
  start : option float;
  end_ : option float;
  text : option string
}.

(** [(seg.text or "").strip()] *)
Definition trimmed (seg : Segment) : string :=
  strip (default EmptyString (text seg)).

(** One block written to the file: [f"{i}\n{start} --> {end}\n{text}\n\n"]. *)
Record Cue : Set := mk_Cue {
  index : nat;
  cue_start : string;
  cue_end : string;
  cue_text : string
}.

Definition nl : string := String (ascii_of_nat 10) EmptyString.

Definition render_cue (c : Cue) : string :=
  (str_of_Z (Z.of_nat (index c)) +:+ nl
   +:+ cue_start c +:+ " --> " +:+ cue_end c +:+ nl
   +:+ cue_text c +:+ nl +:+ nl)%string.

(** The effects of a run, in the order they happen. Only the effects the
    properties below speak about are recorded; the preview and progress
    lines of [main] are not. *)
Inductive event : Set :=
| Open (path : string)      (* open(path, "w", encoding="utf-8") succeeds *)
| Write (c : Cue)           (* f.write of one cue block *)
| Warn (t : string)         (* print of the UYARI line, which quotes [t] *)
| Close                     (* the with-block is left *)
| NoSpeech                  (* the "no speech detected" line on stderr *)
| SrtReady (path : string). (* the final "[5/5] ... SRT ready" line *)

(** The loop variables [prev_text] and [repeat_count]. *)
Record loop_state : Set := mk_state {
  prev_text : option string;
  repeat_count : nat
}.

Definition init : loop_state := mk_state None 0.

(** [prev_text and text == prev_text] *)
Definition same_as_prev (prev : option string) (t : string) : bool :=
  match prev with
  | None => false
  | Some p => truthy p && String.eqb t p
  end.

(** One iteration of the [for] loop, for the [i]-th segment. *)
Definition body (i : nat) (seg : Segment) (st : loop_state)
  : result (loop_state * list event) :=
  let* start_s := format_timestamp (start seg) in
  let* end_s := format_timestamp (end_ seg) in
  let t := trimmed seg in
  if negb (is_meaningful t) then Ok (st, [])
  else if same_as_prev (prev_text st) t then
    let rc := S (repeat_count st) in
    let warning := if rc =? 3 then [Warn t] else [] in
    if 3 <=? rc
    then Ok (mk_state (prev_text st) rc, warning)
    else Ok (mk_state (Some t) rc, warning ++ [Write (mk_Cue i start_s end_s t)])
  else Ok (mk_state (Some t) 0, [Write (mk_Cue i start_s end_s t)]).

(** [for i, seg in enumerate(segments, start=i): ...]: the events up to the
    end of the list or to the first exception. *)
Fixpoint for_loop (i : nat) (segments : list Segment) (st : loop_state)
  : list event * result loop_state :=
  match segments with
  | [] => ([], Ok st)
  | seg :: rest =>
      match body i seg st with
      | Raise e => ([], Raise e)
      | Ok (st', evs) =>
          let '(evs', r) := for_loop (S i) rest st' in
          (evs ++ evs', r)
      end
  end.

(** The trace of [write_srt(segments, out_path)]; leaving the with-block
    closes the file also when the loop raised. *)
Definition write_srt_trace (segments : list Segment) (out_path : string)
  : list event * result unit :=
  let '(evs, r) := for_loop 1 segments init in
  (Open out_path :: evs ++ [Close],
   match r with Ok _ => Ok tt | Raise e => Raise e end).

(** The file system is a map from paths to contents. *)
Definition apply_event (path : string) (fs : gmap string string) (ev : event)
  : gmap string string :=
  match ev with
  | Open p => <[p := EmptyString]> fs
  | Write c => alter (fun s => (s +:+ render_cue c)%string) path fs
  | _ => fs
  end.

Definition write_srt (segments : list Segment) (out_path : string)
    (fs : gmap string string)
  : gmap string string * list event * result unit :=
  let '(evs, r) := write_srt_trace segments out_path in
  (foldl (apply_event out_path) fs evs, evs, r).

(** What the trace says was written. *)
Definition cues (evs : list event) : list Cue :=
  omap (fun ev => match ev with Write c => Some c | _ => None end) evs.

Definition warnings (evs : list event) : list string :=
  omap (fun ev => match ev with Warn t => Some t | _ => None end) evs.

Definition document (evs : list event) : string :=
  foldr (fun c acc => (render_cue c +:+ acc)%string) EmptyString (cues evs).

Definition written_cues (segments : list Segment) : list Cue :=
  cues (fst (for_loop 1 segments init)).

(* ================================================================= *)
(** ** Vocabulary of the statements *)

(** Both timestamps of the segment can be formatted. *)
Definition timestamps_ok (seg : Segment) : bool :=
  is_ok (format_timestamp (start seg)) && is_ok (format_timestamp (end_ seg)).

Definition stamp (seconds : option float) : string :=
  match format_timestamp seconds with
  | Ok s => s
  | Raise _ => EmptyString
  end.

(** The cue that the [i]-th segment gives when it is written. *)
Definition cue_at (i : nat) (seg : Segment) : Cue :=
  mk_Cue i (stamp (start seg)) (stamp (end_ seg)) (trimmed seg).

(** The cues of consecutive segments, the first one at position [i]. *)
Fixpoint cues_at (i : nat) (segs : list Segment) : list Cue :=
  match segs with
  | [] => []
  | seg :: rest => cue_at i seg :: cues_at (S i) rest
  end.

(** [c] is the cue of segment [seg]. *)
Definition cue_from (seg : Segment) (c : Cue) : Prop :=
  format_timestamp (start seg) = Ok (cue_start c)
  /\ format_timestamp (end_ seg) = Ok (cue_end c)
  /\ cue_text c = trimmed seg.

(** The trimmed text of the last segment that passes the filter. *)
Definition last_meaningful (segs : list Segment) : option string :=
  last (filter (fun t => is_meaningful t = true) (map trimmed segs)).

(** The number of segments that pass the filter. *)
Definition occurrences (segs : list Segment) : nat :=
  length (filter (fun s => is_meaningful (trimmed s) = true) segs).

(** [enumerate(segs, start=i)] *)
Definition enumerate (i : nat) (segs : list Segment) : list (nat * Segment) :=
  zip (seq i (length segs)) segs.

(** The cues of the first [n] segments of [segs] that pass the filter,
    each under its position, the first segment of [segs] having
    position [i]. *)
Definition first_meaningful_cues (n i : nat) (segs : list Segment)
  : list Cue :=
  map (fun p => cue_at (fst p) (snd p))
    (take n (filter (fun p => is_meaningful (trimmed (snd p)) = true)
               (enumerate i segs))).

(** The events of the loop are cue blocks and warnings only. *)
Definition loop_event (ev : event) : Prop :=
  match ev with
  | Write _ | Warn _ => True
  | _ => False
  end.

(** A segment with both timestamps and a text, for the examples. *)
Definition seg (a b : float) (t : string) : Segment :=
  mk_Segment (Some a) (Some b) (Some t).

(** The timestamp algorithm read literally from the specification: [None]
    and negative values are 0, and the whole milliseconds are the
    truncation of [seconds * 1000], with nothing rounded in between. *)
Definition spec_total_ms (seconds : option float) : result Z :=
  match seconds with
  | None => Ok 0%Z
  | Some x =>
      if PrimFloat.ltb 0 x
      then Float.to_int (PrimFloat.mul x 1000%float)
      else Ok 0%Z
  end.

Definition spec_format_timestamp (seconds : option float) : result string :=
  let* total_ms := spec_total_ms seconds in
  Ok (render_ms total_ms).

(* ================================================================= *)
(** ** Exact readings of a float *)

(** [z] is the integer nearest to [m / 2^k], and the even one of the two
    nearest when [m / 2^k] lies half way between them. *)
Definition nearest_even (m k z : Z) : Prop :=
  (2 * Z.abs (z * 2 ^ k - m) <= 2 ^ k
   /\ (2 * Z.abs (z * 2 ^ k - m) = 2 ^ k -> Z.even z = true))%Z.

(** The float [y], of value [(-1)^s * m * 2^e], rounds to the integer
    [z]: to the nearest, ties to even. *)
Definition rounds_to (y : float) (z : Z) : Prop :=
  match Prim2SF y with
  | S754_zero _ => z = 0%Z
  | S754_finite s m e =>
      exists a, z = cond_Zopp s a
        /\ if (0 <=? e)%Z then a = (Zpos m * 2 ^ e)%Z
           else nearest_even (Zpos m) (- e) a
  | _ => False
  end.

(** The float [y] cut towards zero is the integer [z]. *)
Definition truncates_to (y : float) (z : Z) : Prop :=
  match Prim2SF y with
  | S754_zero _ => z = 0%Z
  | S754_finite s m e =>
      exists a, z = cond_Zopp s a
        /\ if (0 <=? e)%Z then a = (Zpos m * 2 ^ e)%Z
           else (a * 2 ^ (- e) <= Zpos m < (a + 1) * 2 ^ (- e))%Z
  | _ => False
  end.

(** The float [x], of value [(-1)^s * m * 2^e], is the integer [ip] plus
    a fraction of the same sign: [m * 2^e = a + r * 2^e] with
    [r * 2^e < 1], and [frac] is the float of [(-1)^s * r * 2^e]. *)
Definition splits_into (x : float) (frac : float) (ip : Z) : Prop :=
  match Prim2SF x with
  | S754_zero _ => ip = 0%Z /\ frac = x
  | S754_finite s m e =>
      exists a r, ip = cond_Zopp s a
        /\ (if (0 <=? e)%Z then a = (Zpos m * 2 ^ e)%Z /\ r = 0%Z
            else (Zpos m = a * 2 ^ (- e) + r /\ 0 <= r < 2 ^ (- e))%Z)
        /\ frac = match r with
                  | Zpos p => SF2Prim (S754_finite s p e)
                  | _ => if s then neg_zero else zero
                  end
  | _ => False
  end.

(* ================================================================= *)
(** ** The end of [main], from the collected segments on *)

Inductive exit : Set :=
| Exit (code : Z)        (* sys.exit(code), or code 0 on return *)
| Uncaught (e : exn).    (* traceback, status 1 *)

(** The two preview loops call [format_timestamp] on the first three and
    on the last three segments. *)
Definition preview_one (seg : Segment) : result unit :=
  let* _ := format_timestamp (start seg) in
  let* _ := format_timestamp (end_ seg) in
  Ok tt.

Fixpoint preview (segs : list Segment) : result unit :=
  match segs with
  | [] => Ok tt
  | seg :: rest => let* _ := preview_one seg in preview rest
  end.

Definition main_tail (segments : list Segment) (out_srt : string)
    (fs : gmap string string)
  : gmap string string * list event * exit :=
  match preview (firstn 3 segments
                 ++ skipn (length segments - 3) segments) with
  | Raise e => (fs, [], Uncaught e)
  | Ok _ =>
      let collected := segments in
      match collected with
      | [] => (fs, [NoSpeech], Exit 3)
      | _ =>
          let '(fs', evs, r) := write_srt collected out_srt fs in
          match r with
          | Ok _ => (fs', evs ++ [SrtReady out_srt], Exit 0)
          | Raise e => (fs', evs, Uncaught e)
          end
      end
  end.



(* ================================================================= *)
(** ** Runs of equal texts *)

(** The number of leading elements of [l] that equal [t]. *)
Fixpoint run_of (t : string) (l : list string) : nat :=
  match l with
  | [] => 0
  | x :: r => if String.eqb x t then S (run_of t r) else 0
  end.

(** From no position on do more than three equal texts follow each
    other. *)
Fixpoint runs_bounded (l : list string) : Prop :=
  match l with
  | [] => True
  | x :: r => run_of x r < 3 /\ runs_bounded r
  end.

(* ================================================================= *)
(** ** The default output path of [main] *)

(** [p.rfind(c)] for one character: its last position, or -1. *)
Fixpoint rfind_from (c : ascii) (p : string) (i : Z) : Z :=
  match p with
  | EmptyString => (-1)%Z
  | String x r =>
      let k := rfind_from c r (i + 1)%Z in
      if (0 <=? k)%Z then k else if Ascii.eqb x c then i else (-1)%Z
  end.

Definition rfind (c : ascii) (p : string) : Z := rfind_from c p 0%Z.

(** The [while] loop of [genericpath._splitext]: from [filenameIndex] on,
    for [n] positions up to [dotIndex], look for a character that is not
    a dot; the split happens at the first one found. *)
Fixpoint skip_leading_dots (p : string) (filenameIndex n : nat) : bool :=
  match n with
  | O => false
  | S n' =>
      match String.get filenameIndex p with
      | Some "."%char => skip_leading_dots p (S filenameIndex) n'
      | _ => true
      end
  end.

(** [os.path.splitext(p)] on a POSIX system: separator "/", no alternate
    separator, extension separator ".". *)
Definition splitext (p : string) : string * string :=
  let sepIndex := rfind "/" p in
  let dotIndex := rfind "." p in
  if (sepIndex <? dotIndex)%Z
     && skip_leading_dots p (Z.to_nat (sepIndex + 1))
          (Z.to_nat (dotIndex - (sepIndex + 1)))
  then (String.substring 0 (Z.to_nat dotIndex) p,
        String.substring (Z.to_nat dotIndex)
          (String.length p - Z.to_nat dotIndex) p)
  else (p, EmptyString).

(** [args.output or (os.path.splitext(args.input)[0] + ".srt")] *)
Definition out_srt_path (output : option string) (input : string) : string :=
  match output with
  | Some o => if truthy o then o
              else (fst (splitext input) +:+ ".srt")%string
  | None => (fst (splitext input) +:+ ".srt")%string
  end.

(* ================================================================= *)
(** ** The loop without its two variables *)

(** A description of the events that does not use [prev_text] and
    [repeat_count]: [history] holds the meaningful texts met so far, the
    latest first, and a meaningful segment is judged by the number of
    texts equal to its own that stand at the head of [history]. *)
Fixpoint events_by_history (history : list string) (i : nat)
    (segs : list Segment) : list event :=
  match segs with
  | [] => []
  | s :: rest =>
      if is_meaningful (trimmed s) then
        (if run_of (trimmed s) history <? 3 then [Write (cue_at i s)]
         else if run_of (trimmed s) history =? 3 then [Warn (trimmed s)]
         else [])
        ++ events_by_history (trimmed s :: history) (S i) rest
      else events_by_history history (S i) rest
  end.

(** What [prev_text] and [repeat_count] know of the history. *)
Definition tracks (st : loop_state) (history : list string) : Prop :=
  match history with
  | [] => prev_text st = None
  | t :: _ => prev_text st = Some t
              /\ is_meaningful t = true
              /\ run_of t history = S (repeat_count st)
  end.


(* ================================================================= *)
(** * Properties *)

(** ** The meaningfulness filter *)

Lemma lower_length (s : string) : String.length (lower s) = String.length s.
Proof. induction s as [|c r IH]; simpl; congruence. Qed.

Lemma str_in_In (x : string) (xs : list string) : str_in x xs = true <-> In x xs.
Proof.
  unfold str_in. rewrite existsb_exists. split.
  - intros (y & Hy & E). apply String.eqb_eq in E. now subst.
  - intros H. exists x. split; [done|apply String.eqb_refl].
Qed.

(** C5. The filter drops a text if and only if it is empty, its trimmed
    form has fewer than 3 characters, or its trimmed, lower-cased form is
    one of "aaaa.", "hmm.", "mmm.", "...", "..": the list in the code
    names "..." twice and ".." never, but ".." has two characters and is
    dropped for its length. So "Hmm." in any case is dropped, and
    "Hmmmm." is kept. *)
Theorem is_meaningful_false_iff (t : string) :
  (is_meaningful t = false <->
     t = EmptyString \/ String.length (strip t) < 3
     \/ In (lower (strip t)) ["aaaa."; "hmm."; "mmm."; "..."; ".."]%string)
  /\ (lower (strip t) = "hmm."%string -> is_meaningful t = false)
  /\ is_meaningful "Hmmmm." = true.
Proof.
  assert (Hiff : is_meaningful t = false <->
     t = EmptyString \/ String.length (strip t) < 3
     \/ In (lower (strip t)) ["aaaa."; "hmm."; "mmm."; "..."; ".."]%string).
  { unfold is_meaningful.
    destruct t as [|c r] eqn:Et; simpl truthy; simpl negb.
    - simpl. tauto.
    - rewrite orb_false_l.
      destruct (String.length (strip (String c r)) <? 3) eqn:Hlen.
      + apply Nat.ltb_lt in Hlen. tauto.
      + apply Nat.ltb_ge in Hlen.
        destruct (str_in (lower (strip (String c r))) fillers) eqn:Hin.
        * apply str_in_In in Hin. split; [intros _|done].
          right; right. unfold fillers in Hin. simpl in Hin. simpl. tauto.
        * split; [done|]. intros [H|[H|H]]; [done|lia|].
          assert (In (lower (strip (String c r))) fillers) as Hf.
          { simpl in H. destruct H as [H|[H|[H|[H|[H|[]]]]]];
              try (unfold fillers; simpl; tauto).
            pose proof (lower_length (strip (String c r))) as L.
            rewrite <- H in L. simpl in L. lia. }
          apply str_in_In in Hf. congruence. }
  split; [exact Hiff|]. split; [|reflexivity].
  intros H. apply Hiff. right; right. rewrite H. simpl. tauto.
Qed.

(** " HMM. " lower-cases to "hmm." once trimmed, and is dropped. *)
Lemma is_meaningful_false_iff_witness :
  lower (strip " HMM. ") = "hmm."%string
  /\ is_meaningful " HMM. " = false.
Proof.
  assert (H : lower (strip " HMM. ") = "hmm."%string) by reflexivity.
  split; [exact H|].
  exact (proj1 (proj2 (is_meaningful_false_iff " HMM. ")) H).
Defined.


(* ================================================================= *)
(** ** The loop of [write_srt] *)

Lemma cues_app (a b : list event) : cues (a ++ b) = cues a ++ cues b.
Proof. apply omap_app. Qed.

Lemma warnings_app (a b : list event) : warnings (a ++ b) = warnings a ++ warnings b.
Proof. apply omap_app. Qed.

Lemma stamp_ok (x : option float) :
  is_ok (format_timestamp x) = true -> format_timestamp x = Ok (stamp x).
Proof. unfold stamp. destruct (format_timestamp x); simpl; [done|discriminate]. Qed.

Lemma meaningful_truthy (t : string) : is_meaningful t = true -> truthy t = true.
Proof. unfold is_meaningful. destruct t; simpl; [discriminate|done]. Qed.

(** The loop body on a segment that fails the filter. *)
Lemma body_skip (i : nat) (seg : Segment) (st : loop_state) :
  is_meaningful (trimmed seg) = false ->
  (exists e, body i seg st = Raise e) \/ body i seg st = Ok (st, []).
Proof.
  intros Hm. unfold body.
  destruct (format_timestamp (start seg)) as [s|e]; simpl; [|eauto].
  destruct (format_timestamp (end_ seg)) as [s'|e]; simpl; [|eauto].
  rewrite Hm. simpl. now right.
Qed.

(** The loop body on a segment that passes the filter. *)
Lemma body_keep (i : nat) (seg : Segment) (st : loop_state) :
  timestamps_ok seg = true ->
  is_meaningful (trimmed seg) = true ->
  body i seg st =
    Ok (if same_as_prev (prev_text st) (trimmed seg) then
          if 3 <=? S (repeat_count st)
          then (mk_state (prev_text st) (S (repeat_count st)),
                if S (repeat_count st) =? 3 then [Warn (trimmed seg)] else [])
          else (mk_state (Some (trimmed seg)) (S (repeat_count st)),
                [Write (cue_at i seg)])
        else (mk_state (Some (trimmed seg)) 0, [Write (cue_at i seg)])).
Proof.
  intros Hts Hm. apply andb_true_iff in Hts as [Hs He].
  unfold body, cue_at. rewrite (stamp_ok _ Hs), (stamp_ok _ He). simpl.
  rewrite Hm. simpl.
  destruct (same_as_prev (prev_text st) (trimmed seg)); [|done].
  destruct (repeat_count st) as [|[|[|k]]]; reflexivity.
Qed.

Lemma for_loop_app (a b : list Segment) (i : nat) (st : loop_state) :
  for_loop i (a ++ b) st =
    match for_loop i a st with
    | (evs, Ok st') =>
        let '(evs', r) := for_loop (i + length a) b st' in (evs ++ evs', r)
    | (evs, Raise e) => (evs, Raise e)
    end.
Proof.
  revert i st. induction a as [|seg a IH]; intros i st; simpl.
  - rewrite Nat.add_0_r. destruct (for_loop i b st). done.
  - destruct (body i seg st) as [[st' evs]|e]; [|done].
    rewrite IH. replace (S i + length a) with (i + S (length a)) by lia.
    destruct (for_loop (S i) a st') as [evs1 [st1|e1]]; [|done].
    destruct (for_loop (i + S (length a)) b st1) as [evs2 r2].
    now rewrite app_assoc.
Qed.

(** Inside a run of [t] that has already reached three repeats, every
    further occurrence is dropped in silence. *)
Lemma run_saturated (t : string) (run : list Segment) (i k : nat) :
  is_meaningful t = true ->
  Forall (fun seg => trimmed seg = t) run ->
  Forall (fun seg => timestamps_ok seg = true) run ->
  3 <= k ->
  for_loop i run (mk_state (Some t) k)
  = ([], Ok (mk_state (Some t) (k + length run))).
Proof.
  intros Hm Ht Hts. revert i k.
  induction run as [|seg run IH]; intros i k Hk; simpl.
  - now rewrite Nat.add_0_r.
  - apply Forall_cons in Ht as [Et Ht']. apply Forall_cons in Hts as [Ets Hts'].
    rewrite body_keep by (done || congruence). simpl. rewrite Et.
    rewrite (meaningful_truthy _ Hm), String.eqb_refl. simpl.
    destruct k as [|[|[|k]]]; try lia.
    rewrite (IH Ht' Hts' (S i) (S (S (S (S k))))) by lia. simpl.
    do 2 f_equal. f_equal. lia.
Qed.

(** A run of [t] that starts in a state whose previous text is not [t]:
    the first three occurrences are written, the fourth prints the
    warning, and nothing else happens. *)
Lemma run_fresh (t : string) (run : list Segment) (i : nat) (st : loop_state) :
  is_meaningful t = true ->
  Forall (fun seg => trimmed seg = t) run ->
  Forall (fun seg => timestamps_ok seg = true) run ->
  prev_text st <> Some t ->
  for_loop i run st
  = (map Write (cues_at i (take 3 run))
       ++ (if 4 <=? length run then [Warn t] else []),
     Ok (match run with
         | [] => st
         | _ => mk_state (Some t) (length run - 1)
         end)).
Proof.
  intros Hm Ht Hts Hprev.
  assert (Hsame : same_as_prev (Some t) t = true).
  { simpl. now rewrite (meaningful_truthy _ Hm), String.eqb_refl. }
  assert (Hdiff : same_as_prev (prev_text st) t = false).
  { unfold same_as_prev. destruct (prev_text st) as [p|]; [|done].
    destruct (String.eqb t p) eqn:E; [|apply andb_false_r].
    apply String.eqb_eq in E. congruence. }
  destruct run as [|s1 run]; [done|].
  apply Forall_cons in Ht as [E1 Ht1]. apply Forall_cons in Hts as [T1 Hts1].
  cbn [for_loop prev_text repeat_count Nat.leb Nat.eqb].
  rewrite body_keep by (done || congruence). rewrite E1, Hdiff.
  destruct run as [|s2 run]; [done|].
  apply Forall_cons in Ht1 as [E2 Ht2]. apply Forall_cons in Hts1 as [T2 Hts2].
  cbn [for_loop prev_text repeat_count Nat.leb Nat.eqb].
  rewrite body_keep by (done || congruence).
  cbn [prev_text repeat_count Nat.leb Nat.eqb]. rewrite E2, Hsame.
  destruct run as [|s3 run]; [done|].
  apply Forall_cons in Ht2 as [E3 Ht3]. apply Forall_cons in Hts2 as [T3 Hts3].
  cbn [for_loop prev_text repeat_count Nat.leb Nat.eqb].
  rewrite body_keep by (done || congruence).
  cbn [prev_text repeat_count Nat.leb Nat.eqb]. rewrite E3, Hsame.
  destruct run as [|s4 run]; [done|].
  apply Forall_cons in Ht3 as [E4 Ht4]. apply Forall_cons in Hts3 as [T4 Hts4].
  cbn [for_loop prev_text repeat_count Nat.leb Nat.eqb].
  rewrite body_keep by (done || congruence).
  cbn [prev_text repeat_count Nat.leb Nat.eqb]. rewrite E4, Hsame.
  rewrite (run_saturated t run (S (S (S (S i)))) 3) by (done || lia).
  simpl. repeat (f_equal; try lia).
Qed.

Lemma same_as_prev_true (p : option string) (t : string) :
  same_as_prev p t = true -> p = Some t.
Proof.
  destruct p as [q|]; simpl; [|discriminate].
  intros H. apply andb_true_iff in H as [_ H].
  apply String.eqb_eq in H. now subst.
Qed.

Lemma last_meaningful_cons (seg : Segment) (segs : list Segment) :
  last_meaningful (seg :: segs) =
    match last_meaningful segs with
    | Some t => Some t
    | None => if is_meaningful (trimmed seg) then Some (trimmed seg) else None
    end.
Proof.
  unfold last_meaningful. simpl map. rewrite filter_cons.
  destruct (is_meaningful (trimmed seg)) eqn:Hm.
  - rewrite decide_True by done. apply last_cons.
  - rewrite decide_False by congruence.
    now destruct (last (filter _ (map trimmed segs))).
Qed.

(** After a prefix whose timestamps all format, the loop has not raised
    and [prev_text] is the last meaningful text seen so far. *)
Lemma loop_prev_text (pre : list Segment) (i : nat) (st : loop_state) :
  Forall (fun seg => timestamps_ok seg = true) pre ->
  exists evs st',
    for_loop i pre st = (evs, Ok st')
    /\ prev_text st' = match last_meaningful pre with
                       | Some t => Some t
                       | None => prev_text st
                       end.
Proof.
  revert i st. induction pre as [|seg pre IH]; intros i st Hts.
  - exists [], st. done.
  - apply Forall_cons in Hts as [Hs Hts].
    rewrite last_meaningful_cons. cbn [for_loop].
    destruct (is_meaningful (trimmed seg)) eqn:Hm.
    + rewrite body_keep by done.
      set (r := if same_as_prev _ _ then _ else _).
      assert (Hr : prev_text (fst r) = Some (trimmed seg)).
      { subst r. destruct (same_as_prev _ _) eqn:Hsame; [|done].
        apply same_as_prev_true in Hsame.
        now destruct (3 <=? S (repeat_count st)). }
      destruct r as [st1 evs1]. simpl in Hr.
      destruct (IH (S i) st1 Hts) as (evs2 & st2 & E & Hp).
      rewrite E. exists (evs1 ++ evs2), st2. split; [done|].
      rewrite Hp, Hr. now destruct (last_meaningful pre).
    + destruct (body_skip i seg st Hm) as [[e He]|He].
      * exfalso. unfold body in He.
        apply andb_true_iff in Hs as [H1 H2].
        rewrite (stamp_ok _ H1), (stamp_ok _ H2) in He. simpl in He.
        rewrite Hm in He. discriminate.
      * rewrite He. destruct (IH (S i) st Hts) as (evs2 & st2 & E & Hp).
        rewrite E. exists evs2, st2. split; [done|].
        rewrite Hp. now destruct (last_meaningful pre).
Qed.

(** One iteration writes at most one cue: the cue of its own segment,
    under its own position. *)
Lemma body_cues (i : nat) (seg : Segment) (st st' : loop_state)
    (evs : list event) :
  body i seg st = Ok (st', evs) ->
  cues evs = []
  \/ exists c, cues evs = [c] /\ index c = i /\ cue_from seg c.
Proof.
  unfold body, cue_from.
  destruct (format_timestamp (start seg)) as [s|]; simpl; [|discriminate].
  destruct (format_timestamp (end_ seg)) as [e|]; simpl; [|discriminate].
  destruct (is_meaningful (trimmed seg)); simpl.
  2:{ intros [= <- <-]. now left. }
  destruct (same_as_prev (prev_text st) (trimmed seg)).
  2:{ intros [= <- <-]. right. eexists. simpl. eauto. }
  destruct (repeat_count st) as [|[|[|k]]]; simpl; intros [= <- <-];
    first [ now left | right; eexists; simpl; eauto ].
Qed.

(** Every cue written by the loop started at position [i] carries the
    position of a segment of the list and the content of that segment,
    and the positions increase strictly. *)
Lemma loop_cues_positions (segs : list Segment) (i : nat) (st : loop_state) :
  let cs := cues (fst (for_loop i segs st)) in
  Forall (fun c => i <= index c < i + length segs
                   /\ exists seg, segs !! (index c - i) = Some seg
                                  /\ cue_from seg c) cs
  /\ StronglySorted lt (map index cs).
Proof.
  revert i st. induction segs as [|seg segs IH]; intros i st; simpl.
  - split; constructor.
  - destruct (body i seg st) as [[st1 evs1]|e] eqn:Hb; simpl;
      [|split; constructor].
    specialize (IH (S i) st1). simpl in IH. destruct IH as [IH1 IH2].
    destruct (for_loop (S i) segs st1) as [evs2 r2]. simpl in *.
    rewrite cues_app.
    assert (Hrest : Forall (fun c => i <= index c < i + S (length segs)
              /\ exists seg0, (seg :: segs) !! (index c - i) = Some seg0
                              /\ cue_from seg0 c) (cues evs2)).
    { eapply Forall_impl; [exact IH1|]. simpl.
      intros c ([H1 H2] & seg0 & Hl & Hc). split; [lia|].
      exists seg0. split; [|done].
      replace (index c - i) with (S (index c - S i)) by lia. done. }
    destruct (body_cues _ _ _ _ _ Hb) as [E|(c & E & Hi & Hc)]; rewrite E; simpl.
    + done.
    + split.
      * constructor; [|done]. split; [lia|]. exists seg.
        rewrite Hi, Nat.sub_diag. done.
      * constructor; [done|]. rewrite Forall_fmap.
        eapply Forall_impl; [exact IH1|]. simpl. intros c' ([H1 _] & _). lia.
Qed.

(* ================================================================= *)
(** ** Numbering of the cues *)

(** A strictly increasing list of numbers from [a, b) has at most [b - a]
    elements. *)
Lemma increasing_length_bound (l : list nat) (a b : nat) :
  StronglySorted lt l ->
  Forall (fun x => a <= x < b) l ->
  length l <= b - a.
Proof.
  revert a. induction l as [|x l IH]; intros a Hs Hb; simpl; [lia|].
  apply StronglySorted_inv in Hs as [Hs Hx].
  apply Forall_cons in Hb as [Hxa Hb].
  assert (length l <= b - S x).
  { apply IH; [done|]. rewrite Forall_forall in Hx, Hb |- *.
    intros y Hy. specialize (Hx y Hy). specialize (Hb y Hy). lia. }
  lia.
Qed.

(** If it fills its range it is the range. *)
Lemma increasing_full_range (l : list nat) (a : nat) :
  StronglySorted lt l ->
  Forall (fun x => a <= x < a + length l) l ->
  l = seq a (length l).
Proof.
  revert a. induction l as [|x l IH]; intros a Hs Hb; simpl; [done|].
  pose proof (increasing_length_bound _ _ _ Hs Hb) as Hlen0.
  apply StronglySorted_inv in Hs as [Hs Hx].
  apply Forall_cons in Hb as [Hxa Hb]. simpl in *.
  assert (Hrest : Forall (fun y => S x <= y < a + S (length l)) l).
  { rewrite Forall_forall in Hx, Hb |- *.
    intros y Hy. specialize (Hx y Hy). specialize (Hb y Hy). lia. }
  pose proof (increasing_length_bound _ _ _ Hs Hrest) as Hlen.
  assert (x = a) by lia. subst x. f_equal. apply IH; [done|].
  eapply Forall_impl; [exact Hrest|]. simpl. intros; lia.
Qed.

Lemma written_indices_facts (segments : list Segment) :
  StronglySorted lt (map index (written_cues segments))
  /\ Forall (fun i => 1 <= i <= length segments)
       (map index (written_cues segments)).
Proof.
  destruct (loop_cues_positions segments 1 init) as [Hpos Hs].
  split; [exact Hs|]. rewrite Forall_fmap.
  eapply Forall_impl; [exact Hpos|]. simpl. intros c [H _]. lia.
Qed.

(** C1, as the code has it. The index written with a cue is the 1-based
    position, in the whole input, of the segment the cue was made from.
    The written indices therefore increase strictly, none repeats, and
    they lie in 1..N for N input segments. They are exactly 1..K, for K
    written cues, if and only if every position before a written one is
    written too: a segment skipped before a written one leaves a hole in
    the numbering, a segment skipped after the last written one leaves
    none. *)
Theorem written_indices_increasing (segments : list Segment) :
  let ixs := map index (written_cues segments) in
  Forall (fun c => 1 <= index c
                   /\ exists s, segments !! (index c - 1) = Some s
                                /\ cue_from s c)
    (written_cues segments)
  /\ StronglySorted lt ixs
  /\ NoDup ixs
  /\ Forall (fun i => 1 <= i <= length segments) ixs
  /\ (ixs = seq 1 (length ixs)
      <-> forall i j, In i ixs -> 1 <= j < i -> In j ixs)
  /\ (forall i j, In i ixs -> 1 <= j < i -> ~ In j ixs ->
      ixs <> seq 1 (length ixs)).
Proof.
  intros ixs. destruct (written_indices_facts segments) as [Hs Hb].
  fold ixs in Hs, Hb.
  assert (Hnd : NoDup ixs).
  { clear Hb. induction ixs as [|x l IH]; [constructor|].
    apply StronglySorted_inv in Hs as [Hs Hx]. constructor; [|auto].
    intros Hin. rewrite Forall_forall in Hx. specialize (Hx x Hin). lia. }
  assert (Hiff : ixs = seq 1 (length ixs)
                 <-> forall i j, In i ixs -> 1 <= j < i -> In j ixs).
  { split.
    - intros E i j Hi Hj. rewrite E in Hi |- *.
      apply in_seq in Hi. apply in_seq. lia.
    - intros Hdown. apply increasing_full_range; [done|].
      rewrite Forall_forall in Hb |- *. intros i Hi.
      specialize (Hb i Hi). split; [lia|].
      assert (Hsub : seq 1 i ⊆ ixs).
      { intros j Hj. apply elem_of_seq in Hj.
        destruct (decide (j = i)) as [->|Hne]; [done|].
        apply list_elem_of_In, (Hdown i j); [|lia].
        now apply list_elem_of_In. }
      pose proof (submseteq_length _ _
                    (NoDup_submseteq _ _ (NoDup_seq 1 i) Hsub)) as Hlen.
      rewrite length_seq in Hlen. lia. }
  split.
  { destruct (loop_cues_positions segments 1 init) as [Hpos _].
    eapply Forall_impl; [exact Hpos|]. simpl.
    intros c ([H _] & s & Hl & Hc). split; [lia|]. now exists s. }
  split; [done|]. split; [done|]. split; [done|]. split; [exact Hiff|].
  intros i j Hi Hj Hnj E. apply Hnj. apply (proj1 Hiff E i j Hi Hj).
Qed.

(** C1 as stated fails: with a first segment that the filter drops, the
    only cue is numbered 2, not 1. *)
Lemma written_indices_have_holes :
  map index (written_cues [seg 0 1 "Hi"; seg 1 2 "Hello."])
  <> seq 1 (length (written_cues [seg 0 1 "Hi"; seg 1 2 "Hello."])).
Proof. vm_compute. discriminate. Qed.

(** C9. Every cue written by [write_srt] carries as its index the 1-based
    position, in the whole input, of the segment it was made from, and
    the indices increase strictly. *)
Theorem cue_index_is_input_position (segments : list Segment) :
  Forall (fun c => 1 <= index c
                   /\ exists s, segments !! (index c - 1) = Some s
                                /\ cue_from s c)
    (written_cues segments)
  /\ StronglySorted lt (map index (written_cues segments)).
Proof.
  destruct (loop_cues_positions segments 1 init) as [Hpos Hs].
  split; [|exact Hs].
  eapply Forall_impl; [exact Hpos|]. simpl.
  intros c ([H _] & s & Hl & Hc). split; [lia|]. now exists s.
Qed.

(* ================================================================= *)
(** ** Repeat suppression *)

Lemma cues_map_Write (cs : list Cue) : cues (map Write cs) = cs.
Proof. induction cs as [|c cs IH]; simpl; [done|]. unfold cues in *. simpl. now rewrite IH. Qed.


Lemma cues_warning (b : bool) (t : string) :
  cues (if b then [Warn t] else []) = [].
Proof. now destruct b. Qed.

Lemma same_as_prev_refl (t : string) :
  is_meaningful t = true -> same_as_prev (Some t) t = true.
Proof. intros Hm. simpl. now rewrite (meaningful_truthy _ Hm), String.eqb_refl. Qed.

Lemma same_as_prev_diff (p : option string) (t : string) :
  p <> Some t -> same_as_prev p t = false.
Proof.
  intros Hp. destruct (same_as_prev p t) eqn:E; [|done].
  now apply same_as_prev_true in E.
Qed.

Lemma init_prev_text (pre : list Segment) (t : string) :
  last_meaningful pre <> Some t ->
  match last_meaningful pre with
  | Some u => Some u
  | None => prev_text init
  end <> Some t.
Proof. destruct (last_meaningful pre); simpl; [done|discriminate]. Qed.

Lemma occurrences_nil : occurrences [] = 0.
Proof. reflexivity. Qed.

Lemma occurrences_cons (s : Segment) (r : list Segment) :
  occurrences (s :: r)
  = if is_meaningful (trimmed s) then S (occurrences r) else occurrences r.
Proof.
  unfold occurrences. rewrite filter_cons.
  destruct (is_meaningful (trimmed s)) eqn:Hm.
  - now rewrite decide_True by done.
  - now rewrite decide_False by congruence.
Qed.

Lemma first_meaningful_cues_cons (n i : nat) (s : Segment)
    (r : list Segment) :
  first_meaningful_cues n i (s :: r)
  = if is_meaningful (trimmed s) then
      match n with
      | 0 => []
      | S n' => cue_at i s :: first_meaningful_cues n' (S i) r
      end
    else first_meaningful_cues n (S i) r.
Proof.
  unfold first_meaningful_cues, enumerate. cbn [length seq zip zip_with].
  rewrite filter_cons. cbn [snd].
  destruct (is_meaningful (trimmed s)) eqn:Hm.
  - rewrite decide_True by done. now destruct n.
  - now rewrite decide_False by congruence.
Qed.

Lemma first_meaningful_cues_nil (n i : nat) :
  first_meaningful_cues n i [] = [].
Proof. now destruct n. Qed.

Lemma first_meaningful_cues_0 (i : nat) (segs : list Segment) :
  first_meaningful_cues 0 i segs = [].
Proof. reflexivity. Qed.

Lemma first_meaningful_cues_length (n i : nat) (segs : list Segment) :
  length (first_meaningful_cues n i segs) = Nat.min n (occurrences segs).
Proof.
  revert n i. induction segs as [|s r IH]; intros n i.
  - rewrite first_meaningful_cues_nil, occurrences_nil. simpl. lia.
  - rewrite first_meaningful_cues_cons, occurrences_cons.
    destruct (is_meaningful (trimmed s)); [|apply IH].
    destruct n as [|n]; simpl; [done|]. now rewrite IH.
Qed.

(** A segment of a run that fails the filter, with timestamps that can
    be formatted, is passed over. *)
Lemma for_loop_skip (i : nat) (s : Segment) (r : list Segment)
    (st : loop_state) :
  timestamps_ok s = true ->
  is_meaningful (trimmed s) = false ->
  for_loop i (s :: r) st = for_loop (S i) r st.
Proof.
  intros Hts Hm. cbn [for_loop].
  destruct (body_skip i s st Hm) as [[e He]|He].
  - exfalso. apply andb_true_iff in Hts as [H1 H2]. unfold body in He.
    rewrite (stamp_ok _ H1), (stamp_ok _ H2) in He. simpl in He.
    rewrite Hm in He. discriminate.
  - rewrite He. now destruct (for_loop (S i) r st).
Qed.

(** Inside a run of [t], after [k + 1] occurrences, with segments that
    fail the filter anywhere in between: at most [2 - k] more cues. *)
Lemma run_continued (t : string) (run : list Segment) (i k : nat) :
  is_meaningful t = true ->
  Forall (fun s => is_meaningful (trimmed s) = true -> trimmed s = t) run ->
  Forall (fun s => timestamps_ok s = true) run ->
  exists evs,
    for_loop i run (mk_state (Some t) k)
    = (evs, Ok (mk_state (Some t) (k + occurrences run)))
    /\ cues evs = first_meaningful_cues (2 - k) i run
    /\ warnings evs
       = if (k <? 3) && (3 <=? k + occurrences run) then [t] else [].
Proof.
  intros Hm Ht Hts. revert i k.
  induction run as [|s r IH]; intros i k.
  - exists []. cbn [for_loop].
    rewrite first_meaningful_cues_nil, occurrences_nil, Nat.add_0_r.
    split; [done|]. split; [done|].
    now destruct k as [|[|[|k]]].
  - apply Forall_cons in Ht as [Es Ht]. apply Forall_cons in Hts as [Ts Hts].
    rewrite first_meaningful_cues_cons, occurrences_cons.
    destruct (is_meaningful (trimmed s)) eqn:Hs.
    + specialize (Es eq_refl).
      destruct (IH Ht Hts (S i) (S k)) as (evs & E & Hc & Hw).
      cbn [for_loop]. rewrite body_keep by done.
      cbn [prev_text repeat_count]. rewrite Es, (same_as_prev_refl t Hm).
      destruct (3 <=? S k) eqn:Hk.
      * apply Nat.leb_le in Hk. rewrite E.
        eexists. split; [do 2 f_equal; f_equal; lia|].
        rewrite cues_app, warnings_app, cues_warning, Hc, Hw.
        replace (2 - k) with 0 by lia. replace (2 - S k) with 0 by lia.
        split.
        { now rewrite !first_meaningful_cues_0. }
        destruct (S k =? 3) eqn:E3.
        -- apply Nat.eqb_eq in E3.
           replace (S k <? 3) with false by (symmetry; apply Nat.ltb_ge; lia).
           replace (k <? 3) with true by (symmetry; apply Nat.ltb_lt; lia).
           replace (3 <=? k + S (occurrences r)) with true
             by (symmetry; apply Nat.leb_le; lia).
           reflexivity.
        -- apply Nat.eqb_neq in E3.
           replace (S k <? 3) with false by (symmetry; apply Nat.ltb_ge; lia).
           replace (k <? 3) with false by (symmetry; apply Nat.ltb_ge; lia).
           reflexivity.
      * apply Nat.leb_gt in Hk. rewrite E.
        eexists. split; [do 2 f_equal; f_equal; lia|].
        change (cues ([Write (cue_at i s)] ++ evs)) with (cue_at i s :: cues evs).
        change (warnings ([Write (cue_at i s)] ++ evs)) with (warnings evs).
        rewrite Hc, Hw. replace (2 - k) with (S (2 - S k)) by lia.
        split; [done|].
        replace (k <? 3) with true by (symmetry; apply Nat.ltb_lt; lia).
        replace (S k <? 3) with true by (symmetry; apply Nat.ltb_lt; lia).
        cbn [andb]. f_equal.
        replace (k + S (occurrences r)) with (S k + occurrences r) by lia.
        reflexivity.
    + rewrite (for_loop_skip i s r _ Ts Hs). apply IH; done.
Qed.

(** A run of [t] that starts in a state whose previous text is not [t],
    again with filtered segments anywhere in between: the cues of its
    first three occurrences, and the warning if there is a fourth. *)
Lemma run_started (t : string) (run : list Segment) (i : nat)
    (st : loop_state) :
  is_meaningful t = true ->
  Forall (fun s => is_meaningful (trimmed s) = true -> trimmed s = t) run ->
  Forall (fun s => timestamps_ok s = true) run ->
  prev_text st <> Some t ->
  exists evs,
    for_loop i run st
    = (evs, Ok (if occurrences run =? 0 then st
                else mk_state (Some t) (occurrences run - 1)))
    /\ cues evs = first_meaningful_cues 3 i run
    /\ warnings evs = if 4 <=? occurrences run then [t] else [].
Proof.
  intros Hm Ht Hts Hprev. revert i.
  induction run as [|s r IH]; intros i.
  - exists []. now rewrite first_meaningful_cues_nil.
  - apply Forall_cons in Ht as [Es Ht]. apply Forall_cons in Hts as [Ts Hts].
    rewrite first_meaningful_cues_cons, occurrences_cons.
    destruct (is_meaningful (trimmed s)) eqn:Hs.
    + specialize (Es eq_refl).
      destruct (run_continued t r (S i) 0 Hm Ht Hts) as (evs & E & Hc & Hw).
      cbn [for_loop]. rewrite body_keep by done.
      rewrite Es, (same_as_prev_diff _ _ Hprev), E.
      eexists. split; [do 2 f_equal; f_equal; simpl; lia|].
      change (cues ([Write (cue_at i s)] ++ evs)) with (cue_at i s :: cues evs).
      change (warnings ([Write (cue_at i s)] ++ evs)) with (warnings evs).
      rewrite Hc, Hw. split; [done|]. reflexivity.
    + rewrite (for_loop_skip i s r _ Ts Hs). apply IH; done.
Qed.

(** The loop over [pre ++ run ++ post], where [run] is a run of the
    meaningful text [t] that starts afresh after [pre]. *)
Lemma loop_over_run (pre run post : list Segment) (t : string) :
  is_meaningful t = true ->
  Forall (fun s => is_meaningful (trimmed s) = true -> trimmed s = t) run ->
  Forall (fun s => timestamps_ok s = true) (pre ++ run) ->
  last_meaningful pre <> Some t ->
  exists evs1 st1 evs2,
    for_loop 1 pre init = (evs1, Ok st1)
    /\ prev_text st1 <> Some t
    /\ for_loop (S (length pre)) run st1
       = (evs2, Ok (if occurrences run =? 0 then st1
                    else mk_state (Some t) (occurrences run - 1)))
    /\ cues evs2 = first_meaningful_cues 3 (S (length pre)) run
    /\ warnings evs2 = (if 4 <=? occurrences run then [t] else [])
    /\ for_loop 1 (pre ++ run ++ post) init
       = let '(evs3, r) :=
           for_loop (S (length pre + length run)) post
             (if occurrences run =? 0 then st1
              else mk_state (Some t) (occurrences run - 1)) in
         (evs1 ++ evs2 ++ evs3, r).
Proof.
  intros Hm Ht Hts Hprev. apply Forall_app in Hts as [Hpre Hrun].
  destruct (loop_prev_text pre 1 init Hpre) as (evs1 & st1 & E1 & Hp).
  assert (Hst1 : prev_text st1 <> Some t).
  { rewrite Hp. now apply init_prev_text. }
  destruct (run_started t run (S (length pre)) st1 Hm Ht Hrun Hst1)
    as (evs2 & E2 & Hc & Hw).
  exists evs1, st1, evs2. repeat (split; [done|]).
  rewrite for_loop_app, E1. simpl Nat.add. rewrite for_loop_app, E2.
  replace (S (length pre) + length run) with (S (length pre + length run))
    by lia.
  now destruct (for_loop _ post _) as [evs3 r].
Qed.

(** C2, as the code has it. A run is counted among the segments that pass
    the filter: segments that fail it may stand anywhere inside a run and
    do not end it. In a run of meaningful segments with the same trimmed
    text that starts after a prefix whose last meaningful text is
    different, and with timestamps that can be formatted up to the end of
    the run, the first, second and third occurrences are written and the
    fourth and all later ones are not: the cues of [pre ++ run ++ post]
    are those of [pre], then the cues of the first three meaningful
    segments of [run] under their input positions, then cues that all
    come from [post]. Of five consecutive "OK." segments exactly the
    first three are written. *)
Theorem run_writes_first_three :
  (forall (pre run post : list Segment) (t : string),
      is_meaningful t = true ->
      Forall (fun s => is_meaningful (trimmed s) = true -> trimmed s = t)
        run ->
      Forall (fun s => timestamps_ok s = true) (pre ++ run) ->
      last_meaningful pre <> Some t ->
      exists rest,
        written_cues (pre ++ run ++ post)
        = written_cues pre
            ++ first_meaningful_cues 3 (S (length pre)) run ++ rest
        /\ length (first_meaningful_cues 3 (S (length pre)) run)
           = Nat.min 3 (occurrences run)
        /\ Forall (fun c => index c <= length pre) (written_cues pre)
        /\ Forall (fun c => length pre + length run < index c) rest)
  /\ written_cues [seg 0 1 "OK."; seg 1 2 "OK."; seg 2 3 "OK.";
                   seg 3 4 "OK."; seg 4 5 "OK."]
     = cues_at 1 [seg 0 1 "OK."; seg 1 2 "OK."; seg 2 3 "OK."].
Proof.
  split; [|reflexivity].
  intros pre run post t Hm Ht Hts Hprev.
  destruct (loop_over_run pre run post t Hm Ht Hts Hprev)
    as (evs1 & st1 & evs2 & E1 & _ & _ & Hc & _ & E).
  set (st2 := if occurrences run =? 0 then st1
              else mk_state (Some t) (occurrences run - 1)) in *.
  exists (cues (fst (for_loop (S (length pre + length run)) post st2))).
  unfold written_cues. rewrite E, E1.
  pose proof (loop_cues_positions post (S (length pre + length run)) st2)
    as [Hpost _].
  pose proof (loop_cues_positions pre 1 init) as [Hpre _].
  rewrite E1 in Hpre. simpl in Hpre.
  destruct (for_loop _ post st2) as [evs3 r]. cbn [fst] in *.
  rewrite !cues_app, Hc.
  split; [reflexivity|]. split; [apply first_meaningful_cues_length|].
  split.
  - eapply Forall_impl; [exact Hpre|]. simpl. intros c [H _]. lia.
  - eapply Forall_impl; [exact Hpost|]. simpl. intros c [H _]. lia.
Qed.

(** A run of four "OK." with a "Hi" inside it, after a "Well.": the cues
    of positions 2, 4 and 5 are written, the one of position 6 is not. *)
Lemma run_writes_first_three_witness :
  let pre := [seg 0 1 "Well."] in
  let run := [seg 1 2 "OK."; seg 2 3 "Hi"; seg 3 4 "OK."; seg 4 5 "OK.";
              seg 5 6 "OK."] in
  map index (first_meaningful_cues 3 (S (length pre)) run) = [2; 4; 5]
  /\ exists rest,
       written_cues (pre ++ run ++ [])
       = written_cues pre
           ++ first_meaningful_cues 3 (S (length pre)) run ++ rest
       /\ length (first_meaningful_cues 3 (S (length pre)) run)
          = Nat.min 3 (occurrences run)
       /\ Forall (fun c => index c <= length pre) (written_cues pre)
       /\ Forall (fun c => length pre + length run < index c) rest.
Proof.
  intros pre run. split; [reflexivity|].
  apply (proj1 run_writes_first_three pre run [] "OK.").
  - reflexivity.
  - repeat constructor. intros H. discriminate H.
  - repeat constructor.
  - discriminate.
Defined.

(** C2 as stated fails: of five consecutive "OK." segments the third is
    written too, so the cues are not just those of the first two. *)
Lemma third_occurrence_is_written :
  let run := [seg 0 1 "OK."; seg 1 2 "OK."; seg 2 3 "OK."; seg 3 4 "OK.";
              seg 4 5 "OK."] in
  written_cues run <> cues_at 1 (take 2 run)
  /\ map index (written_cues run) = [1; 2; 3].
Proof. vm_compute. split; [discriminate|reflexivity]. Qed.

(** C4, as the code has it. A run is counted among the segments that pass
    the filter, as for C2, and the timestamps of the input up to the end
    of the run can be formatted. Processing an occurrence of the run
    prints the warning exactly when three occurrences of the run precede
    it, that is at the fourth occurrence, and the warning quotes the
    text; so a run prints it once when it has four occurrences or more
    and never when it has three or fewer. *)
Theorem warning_at_fourth_occurrence
    (pre r1 r2 : list Segment) (s : Segment) (t : string) :
  is_meaningful t = true ->
  trimmed s = t ->
  Forall (fun x => is_meaningful (trimmed x) = true -> trimmed x = t)
    (r1 ++ s :: r2) ->
  Forall (fun x => timestamps_ok x = true) (pre ++ r1 ++ s :: r2) ->
  last_meaningful pre <> Some t ->
  (exists evs0 st st' evs,
      for_loop 1 (pre ++ r1) init = (evs0, Ok st)
      /\ body (S (length (pre ++ r1))) s st = Ok (st', evs)
      /\ warnings evs = if occurrences r1 =? 3 then [t] else [])
  /\ (exists evs1 st1 evs2 st2,
         for_loop 1 pre init = (evs1, Ok st1)
         /\ for_loop (S (length pre)) (r1 ++ s :: r2) st1 = (evs2, Ok st2)
         /\ warnings evs2
            = if 4 <=? occurrences (r1 ++ s :: r2) then [t] else []).
Proof.
  intros Hm Es Ht Hts Hprev. split.
  - apply Forall_app in Ht as [Ht1 _].
    rewrite app_assoc in Hts. apply Forall_app in Hts as [Hts1 Hts2].
    apply Forall_cons in Hts2 as [Ts _].
    destruct (loop_over_run pre r1 [] t Hm Ht1 Hts1 Hprev)
      as (evs1 & st1 & evs2 & E1 & Hst1 & _ & _ & _ & E).
    rewrite app_nil_r in E. cbn [for_loop] in E.
    set (st2 := if occurrences r1 =? 0 then st1
                else mk_state (Some t) (occurrences r1 - 1)) in *.
    assert (Hms : is_meaningful (trimmed s) = true) by congruence.
    pose proof (body_keep (S (length (pre ++ r1))) s st2 Ts Hms) as Hb.
    set (r := if same_as_prev _ _ then _ else _) in Hb.
    eexists _, st2, (fst r), (snd r). split; [exact E|].
    split; [rewrite Hb; now destruct r|].
    subst r st2. rewrite Es.
    destruct (occurrences r1) as [|n] eqn:Ho.
    + cbn [Nat.eqb]. now rewrite (same_as_prev_diff _ _ Hst1).
    + cbn [Nat.eqb prev_text repeat_count].
      rewrite (same_as_prev_refl t Hm), Nat.sub_succ, Nat.sub_0_r.
      destruct n as [|[|[|n]]]; reflexivity.
  - destruct (loop_over_run pre (r1 ++ s :: r2) [] t Hm Ht Hts Hprev)
      as (evs1 & st1 & evs2 & E1 & _ & E2 & _ & Hw & _).
    eexists evs1, st1, evs2, _. split; [exact E1|]. split; [exact E2|].
    exact Hw.
Qed.

(** Three "OK.", a "Hi" and two more "OK.": the warning comes with the
    fourth occurrence, the fifth segment. *)
Lemma warning_at_fourth_occurrence_witness :
  let ok := seg 0 1 "OK." in
  let r1 := [ok; ok; ok; seg 1 2 "Hi"] in
  occurrences r1 = 3
  /\ (exists evs0 st st' evs,
         for_loop 1 ([] ++ r1) init = (evs0, Ok st)
         /\ body (S (length ([] ++ r1))) ok st = Ok (st', evs)
         /\ warnings evs = if occurrences r1 =? 3 then ["OK."%string] else [])
  /\ (exists evs1 st1 evs2 st2,
         for_loop 1 [] init = (evs1, Ok st1)
         /\ for_loop (S (length (@nil Segment))) (r1 ++ ok :: [ok]) st1
            = (evs2, Ok st2)
         /\ warnings evs2
            = if 4 <=? occurrences (r1 ++ ok :: [ok])
              then ["OK."%string] else []).
Proof.
  intros ok r1. split; [reflexivity|].
  apply (warning_at_fourth_occurrence [] r1 [ok] ok "OK.").
  - reflexivity.
  - reflexivity.
  - repeat constructor. intros H. discriminate H.
  - repeat constructor.
  - discriminate.
Defined.

(** C4 as stated fails: after three consecutive "OK." segments nothing
    has been printed; the warning appears when a fourth is processed. *)
Lemma no_warning_at_third_occurrence :
  let ok := seg 0 1 "OK." in
  warnings (fst (for_loop 1 [ok; ok; ok] init)) <> ["OK."%string]
  /\ warnings (fst (for_loop 1 [ok; ok; ok] init)) = []
  /\ warnings (fst (for_loop 1 [ok; ok; ok; ok] init)) = ["OK."%string].
Proof. vm_compute. repeat split; discriminate. Qed.

(** C7, as the code has it. For meaningful texts [a] and [b] that differ,
    on segments with trimmed texts a, a, b followed by a run of a: the
    segment with [b] sets [prev_text] to [b] and [repeat_count] to 0, so
    the run of [a] after it is counted from the start, and its first
    three occurrences are written. With a, a, b, a, a, a all six segments
    are written; only a fourth [a] after [b] would be dropped. *)
Theorem differing_text_restarts_run
    (s1 s2 s3 : Segment) (run : list Segment) (a b : string) :
  is_meaningful a = true ->
  is_meaningful b = true ->
  a <> b ->
  trimmed s1 = a -> trimmed s2 = a -> trimmed s3 = b ->
  Forall (fun x => trimmed x = a) run ->
  Forall (fun x => timestamps_ok x = true) (s1 :: s2 :: s3 :: run) ->
  for_loop 1 [s1; s2; s3] init
  = (map Write (cues_at 1 [s1; s2; s3]), Ok (mk_state (Some b) 0))
  /\ written_cues (s1 :: s2 :: s3 :: run)
     = cues_at 1 [s1; s2; s3] ++ cues_at 4 (take 3 run).
Proof.
  intros Ha Hb Hab E1 E2 E3 Hrun Hts.
  apply Forall_cons in Hts as [T1 Hts]. apply Forall_cons in Hts as [T2 Hts].
  apply Forall_cons in Hts as [T3 Hts].
  assert (Hpre : for_loop 1 [s1; s2; s3] init
                 = (map Write (cues_at 1 [s1; s2; s3]), Ok (mk_state (Some b) 0))).
  { cbn [for_loop]. rewrite body_keep by (done || congruence).
    cbn [init prev_text repeat_count same_as_prev].
    rewrite body_keep by (done || congruence).
    cbn [prev_text repeat_count Nat.leb]. rewrite E1, E2, (same_as_prev_refl a Ha).
    rewrite body_keep by (done || congruence).
    cbn [prev_text repeat_count]. rewrite E3.
    rewrite (same_as_prev_diff (Some a) b) by congruence.
    reflexivity. }
  split; [exact Hpre|].
  unfold written_cues.
  change (s1 :: s2 :: s3 :: run) with ([s1; s2; s3] ++ run).
  rewrite for_loop_app, Hpre.
  rewrite (run_fresh a run (1 + length [s1; s2; s3]) (mk_state (Some b) 0))
    by (done || (simpl; congruence)).
  cbn [fst]. rewrite !cues_app, !cues_map_Write, cues_warning, app_nil_r.
  reflexivity.
Qed.

(** With "AA." and "BB.": all six segments of AA. AA. BB. AA. AA. AA.
    are written. *)
Lemma differing_text_restarts_run_witness :
  let sa := seg 0 1 "AA." in
  let sb := seg 1 2 "BB." in
  for_loop 1 [sa; sa; sb] init
  = (map Write (cues_at 1 [sa; sa; sb]), Ok (mk_state (Some "BB."%string) 0))
  /\ written_cues (sa :: sa :: sb :: [sa; sa; sa])
     = cues_at 1 [sa; sa; sb] ++ cues_at 4 (take 3 [sa; sa; sa]).
Proof.
  intros sa sb.
  apply (differing_text_restarts_run sa sa sb [sa; sa; sa] "AA." "BB.").
  - reflexivity.
  - reflexivity.
  - discriminate.
  - reflexivity.
  - reflexivity.
  - reflexivity.
  - repeat constructor.
  - repeat constructor.
Defined.

(** C7 as stated fails. The texts "A." and "B." have two characters, so
    the filter drops all six segments and nothing is written; and with
    texts that pass the filter the sixth segment is written too. *)
Lemma sixth_segment_not_suppressed :
  map cue_text
    (written_cues (map (seg 0 1) ["A."; "A."; "B."; "A."; "A."; "A."]%string))
  <> ["A."; "A."; "B."; "A."; "A."]%string
  /\ written_cues (map (seg 0 1) ["A."; "A."; "B."; "A."; "A."; "A."]%string)
     = []
  /\ map cue_text
       (written_cues
          (map (seg 0 1) ["AA."; "AA."; "BB."; "AA."; "AA."; "AA."]%string))
     = ["AA."; "AA."; "BB."; "AA."; "AA."; "AA."]%string.
Proof. vm_compute. repeat split; discriminate. Qed.

(** C8. A segment whose text fails the filter leaves [prev_text] and
    [repeat_count] as they are and writes and prints nothing: its
    iteration either raises, when a timestamp cannot be formatted, or
    returns the state it was given with no event, and the loop goes on
    as if from the next position. Hence an iteration that returns a
    different state, or any event, is one of a meaningful segment. *)
Theorem filtered_segment_is_inert
    (i : nat) (s : Segment) (st : loop_state) (rest : list Segment) :
  is_meaningful (trimmed s) = false ->
  (timestamps_ok s = true ->
     body i s st = Ok (st, [])
     /\ for_loop i (s :: rest) st = for_loop (S i) rest st)
  /\ (timestamps_ok s = false -> exists e, body i s st = Raise e)
  /\ (forall st' evs, body i s st = Ok (st', evs) -> st' = st /\ evs = []).
Proof.
  intros Hm.
  assert (Hok : timestamps_ok s = true -> body i s st = Ok (st, [])).
  { intros Hts. apply andb_true_iff in Hts as [H1 H2]. unfold body.
    rewrite (stamp_ok _ H1), (stamp_ok _ H2). simpl. now rewrite Hm. }
  split; [|split].
  - intros Hts. split; [auto|]. cbn [for_loop]. rewrite (Hok Hts).
    now destruct (for_loop (S i) rest st).
  - intros Hts. unfold timestamps_ok in Hts. unfold body.
    destruct (format_timestamp (start s)) as [x|e]; simpl in *; [|eauto].
    destruct (format_timestamp (end_ s)) as [y|e]; simpl in *; [discriminate|eauto].
  - intros st' evs Hb.
    destruct (body_skip i s st Hm) as [[e He]|He]; rewrite He in Hb.
    + discriminate.
    + now injection Hb as <- <-.
Qed.

(** A "Hi" before a "Hello.": the state and the output do not see it. *)
Lemma filtered_segment_is_inert_witness :
  let s := seg 0 1 "Hi" in
  let st := mk_state (Some "Hello."%string) 2 in
  is_meaningful (trimmed s) = false
  /\ timestamps_ok s = true
  /\ body 7 s st = Ok (st, [])
  /\ for_loop 7 (s :: [seg 1 2 "Hello."]) st = for_loop 8 [seg 1 2 "Hello."] st.
Proof.
  intros s st.
  assert (Hm : is_meaningful (trimmed s) = false) by reflexivity.
  assert (Hts : timestamps_ok s = true) by reflexivity.
  split; [exact Hm|]. split; [exact Hts|].
  exact (proj1 (filtered_segment_is_inert 7 s st [seg 1 2 "Hello."] Hm) Hts).
Defined.

(* ================================================================= *)
(** ** The output file *)

Lemma string_app_assoc (a b c : string) :
  ((a +:+ b) +:+ c = a +:+ (b +:+ c))%string.
Proof.
  induction a as [|x a IH]; [done|].
  change (String x ((a +:+ b) +:+ c) = String x (a +:+ (b +:+ c)))%string.
  now rewrite IH.
Qed.

Lemma string_app_nil_r (a : string) : (a +:+ EmptyString = a)%string.
Proof.
  induction a as [|x a IH]; [done|].
  change (String x (a +:+ EmptyString) = String x a)%string.
  now rewrite IH.
Qed.

Lemma document_Write (c : Cue) (evs : list event) :
  document (Write c :: evs) = (render_cue c +:+ document evs)%string.
Proof. reflexivity. Qed.

Lemma document_Warn (t : string) (evs : list event) :
  document (Warn t :: evs) = document evs.
Proof. reflexivity. Qed.

Lemma body_events (i : nat) (s : Segment) (st st' : loop_state)
    (evs : list event) :
  body i s st = Ok (st', evs) -> Forall loop_event evs.
Proof.
  unfold body.
  destruct (format_timestamp (start s)); simpl; [|discriminate].
  destruct (format_timestamp (end_ s)); simpl; [|discriminate].
  destruct (is_meaningful (trimmed s)); simpl.
  2:{ intros [= <- <-]. constructor. }
  destruct (same_as_prev (prev_text st) (trimmed s)).
  2:{ intros [= <- <-]. repeat constructor. }
  destruct (repeat_count st) as [|[|[|k]]]; simpl; intros [= <- <-];
    repeat constructor.
Qed.

Lemma for_loop_events (segs : list Segment) (i : nat) (st : loop_state) :
  Forall loop_event (fst (for_loop i segs st)).
Proof.
  revert i st. induction segs as [|s segs IH]; intros i st; simpl.
  - constructor.
  - destruct (body i s st) as [[st1 evs1]|e] eqn:Hb; simpl; [|constructor].
    specialize (IH (S i) st1).
    destruct (for_loop (S i) segs st1) as [evs2 r]. simpl in *.
    apply Forall_app. split; [|done]. eapply body_events, Hb.
Qed.

(** What the events of the loop do to the open file and to the others. *)
Lemma apply_loop_events (path : string) (evs : list event)
    (fs : gmap string string) (content : string) :
  Forall loop_event evs ->
  fs !! path = Some content ->
  foldl (apply_event path) fs evs !! path
  = Some (content +:+ document evs)%string
  /\ forall p, p <> path -> foldl (apply_event path) fs evs !! p = fs !! p.
Proof.
  revert fs content.
  induction evs as [|ev evs IH]; intros fs content Hk Hl; cbn [foldl].
  - unfold document. simpl. now rewrite string_app_nil_r.
  - apply Forall_cons in Hk as [Hev Hk].
    destruct ev as [p|c|t| | |p]; simpl in Hev; try done; cbn [apply_event].
    + destruct (IH (alter (fun s => (s +:+ render_cue c)%string) path fs)
                  (content +:+ render_cue c)%string Hk) as [H1 H2].
      { now rewrite lookup_alter_eq, Hl. }
      split.
      * now rewrite H1, document_Write, string_app_assoc.
      * intros p Hp. rewrite (H2 p Hp). now apply lookup_alter_ne.
    + destruct (IH fs content Hk Hl) as [H1 H2]. split; [|done].
      now rewrite H1, document_Warn.
Qed.

(** When every segment fails the filter the loop has no event at all. *)
Lemma all_filtered_no_event (segs : list Segment) (i : nat) (st : loop_state) :
  Forall (fun s => is_meaningful (trimmed s) = false) segs ->
  fst (for_loop i segs st) = []
  /\ (Forall (fun s => timestamps_ok s = true) segs ->
      for_loop i segs st = ([], Ok st)).
Proof.
  revert i. induction segs as [|s segs IH]; intros i Hf; simpl; [done|].
  apply Forall_cons in Hf as [Hs Hf].
  destruct (IH (S i) Hf) as [IH1 IH2].
  destruct (body_skip i s st Hs) as [[e He]|He].
  - rewrite He. split; [done|]. intros Hts. apply Forall_cons in Hts as [Hts _].
    exfalso. apply andb_true_iff in Hts as [H1 H2]. unfold body in He.
    rewrite (stamp_ok _ H1), (stamp_ok _ H2) in He. simpl in He.
    rewrite Hs in He. discriminate.
  - rewrite He. destruct (for_loop (S i) segs st) as [evs r] eqn:E.
    simpl in *. split; [done|]. intros Hts.
    apply Forall_cons in Hts as [_ Hts]. now rewrite <- (IH2 Hts).
Qed.

Lemma cues_trace (path : string) (evs : list event) :
  cues (Open path :: evs ++ [Close]) = cues evs.
Proof. unfold cues. simpl. rewrite omap_app. simpl. apply app_nil_r. Qed.

Lemma write_srt_unfold (segments : list Segment) (out_path : string)
    (fs : gmap string string) :
  write_srt segments out_path fs
  = (foldl (apply_event out_path) (<[out_path := EmptyString]> fs)
       (fst (for_loop 1 segments init)),
     Open out_path :: fst (for_loop 1 segments init) ++ [Close],
     match snd (for_loop 1 segments init) with
     | Ok _ => Ok tt
     | Raise e => Raise e
     end).
Proof.
  unfold write_srt, write_srt_trace.
  destruct (for_loop 1 segments init) as [evs r]. simpl.
  now rewrite foldl_app.
Qed.

(** The file that [write_srt] leaves is the concatenation of the blocks
    of [written_cues], so what is proved of the cues is proved of the
    document. *)
Lemma write_srt_document (segments : list Segment) (out_path : string)
    (fs : gmap string string) :
  fst (fst (write_srt segments out_path fs)) !! out_path
  = Some (foldr (fun c acc => (render_cue c +:+ acc)%string) EmptyString
            (written_cues segments)).
Proof.
  rewrite write_srt_unfold. cbn [fst].
  destruct (apply_loop_events out_path (fst (for_loop 1 segments init))
              (<[out_path := EmptyString]> fs) EmptyString
              (for_loop_events segments 1 init)) as [H _].
  { apply lookup_insert_eq. }
  exact H.
Qed.

(** C10. [write_srt] opens the output path for writing before the loop
    looks at a segment: [Open] is the first event of every run, also of
    one that raises at its first segment, and afterwards the path holds
    exactly the blocks written, whatever was there before, while every
    other file is untouched. When every segment fails the filter the
    path exists and holds the empty string. *)
Theorem output_file_always_created (segments : list Segment)
    (out_path : string) (fs : gmap string string) :
  let out := write_srt segments out_path fs in
  head (snd (fst out)) = Some (Open out_path)
  /\ fst (fst out) !! out_path = Some (document (snd (fst out)))
  /\ (forall p, p <> out_path -> fst (fst out) !! p = fs !! p)
  /\ (Forall (fun s => is_meaningful (trimmed s) = false) segments ->
      fst (fst out) !! out_path = Some EmptyString).
Proof.
  intros out. subst out. rewrite write_srt_unfold. cbn [fst snd].
  destruct (apply_loop_events out_path (fst (for_loop 1 segments init))
              (<[out_path := EmptyString]> fs) EmptyString
              (for_loop_events segments 1 init)) as [H1 H2].
  { apply lookup_insert_eq. }
  split; [done|]. split; [|split].
  - rewrite H1. unfold document. now rewrite cues_trace.
  - intros p Hp. rewrite (H2 p Hp). now apply lookup_insert_ne.
  - intros Hf. rewrite H1.
    destruct (all_filtered_no_event segments 1 init Hf) as [-> _]. done.
Qed.

(** A run over fillers only, on a path that held an older document. *)
Lemma output_file_always_created_witness :
  let segments := [seg 0 1 "Hi"; seg 1 2 "hmm."; seg 2 3 "..."] in
  let fs : gmap string string := {[ "out.srt"%string := "old"%string ]} in
  Forall (fun s => is_meaningful (trimmed s) = false) segments
  /\ fst (fst (write_srt segments "out.srt" fs)) !! "out.srt"%string
     = Some EmptyString.
Proof.
  intros segments fs.
  assert (Hf : Forall (fun s => is_meaningful (trimmed s) = false) segments)
    by (repeat constructor).
  split; [exact Hf|].
  exact (proj2 (proj2 (proj2
           (output_file_always_created segments "out.srt" fs))) Hf).
Defined.

(* ================================================================= *)
(** ** The exit status of [main] *)

Lemma preview_ok (segs : list Segment) :
  Forall (fun s => timestamps_ok s = true) segs -> preview segs = Ok tt.
Proof.
  induction segs as [|s segs IH]; intros Hts; simpl; [done|].
  apply Forall_cons in Hts as [Hs Hts].
  apply andb_true_iff in Hs as [H1 H2]. unfold preview_one.
  rewrite (stamp_ok _ H1), (stamp_ok _ H2). simpl. auto.
Qed.

Lemma main_tail_nonempty (s : Segment) (segments : list Segment)
    (out_srt : string) (fs : gmap string string) :
  snd (main_tail (s :: segments) out_srt fs) <> Exit 3
  /\ ~ In NoSpeech (snd (fst (main_tail (s :: segments) out_srt fs))).
Proof.
  unfold main_tail.
  destruct (preview _) as [u|e]; [|split; [discriminate|simpl; tauto]].
  rewrite write_srt_unfold.
  pose proof (for_loop_events (s :: segments) 1 init) as Hk.
  destruct (for_loop 1 (s :: segments) init) as [evs [st|e]]; cbn [fst snd] in *.
  - split; [discriminate|]. intros Hin.
    destruct Hin as [Hin|Hin]; [discriminate|].
    rewrite <- app_assoc in Hin. apply in_app_or in Hin as [Hin|Hin].
    + rewrite Forall_forall in Hk. apply list_elem_of_In in Hin.
      exact (Hk _ Hin).
    + simpl in Hin. destruct Hin as [Hin|[Hin|[]]]; discriminate.
  - split; [discriminate|]. intros Hin.
    destruct Hin as [Hin|Hin]; [discriminate|].
    apply in_app_or in Hin as [Hin|Hin].
    + rewrite Forall_forall in Hk. apply list_elem_of_In in Hin.
      exact (Hk _ Hin).
    + simpl in Hin. destruct Hin as [Hin|[]]; discriminate.
Qed.

(** C3, as the code has it. [main] reports "no speech detected" and exits
    with status 3 exactly when the recogniser returned no segment at all,
    and then it does not touch the file system. When there are segments
    and every one of them fails the filter, [write_srt] leaves an empty
    file, [main] prints that the SRT is ready and ends with status 0. *)
Theorem no_speech_only_without_segments (segments : list Segment)
    (out_srt : string) (fs : gmap string string) :
  (snd (main_tail segments out_srt fs) = Exit 3 <-> segments = [])
  /\ (In NoSpeech (snd (fst (main_tail segments out_srt fs)))
      <-> segments = [])
  /\ (segments = [] ->
      main_tail segments out_srt fs = (fs, [NoSpeech], Exit 3))
  /\ (segments <> [] ->
      Forall (fun s => timestamps_ok s = true) segments ->
      Forall (fun s => is_meaningful (trimmed s) = false) segments ->
      main_tail segments out_srt fs
      = (<[out_srt := EmptyString]> fs,
         [Open out_srt; Close; SrtReady out_srt], Exit 0)).
Proof.
  destruct segments as [|s segments].
  - repeat split; try done. simpl. tauto.
  - destruct (main_tail_nonempty s segments out_srt fs) as [H1 H2].
    split; [split; [done|discriminate]|].
    split; [split; [done|discriminate]|].
    split; [discriminate|].
    intros _ Hts Hf. unfold main_tail.
    rewrite preview_ok.
    2:{ apply Forall_app. split; [now apply Forall_take|now apply Forall_drop]. }
    rewrite write_srt_unfold.
    destruct (all_filtered_no_event (s :: segments) 1 init Hf) as [_ E].
    rewrite (E Hts). reflexivity.
Qed.

(** Two fillers: a successful run with an empty document. *)
Lemma no_speech_only_without_segments_witness :
  let segments := [seg 0 1 "..."; seg 1 2 "  "] in
  segments <> []
  /\ Forall (fun s => timestamps_ok s = true) segments
  /\ Forall (fun s => is_meaningful (trimmed s) = false) segments
  /\ main_tail segments "out.srt" ∅
     = (<["out.srt"%string := EmptyString]> ∅,
        [Open "out.srt"; Close; SrtReady "out.srt"], Exit 0).
Proof.
  intros segments.
  assert (H1 : segments <> []) by discriminate.
  assert (H2 : Forall (fun s => timestamps_ok s = true) segments)
    by (repeat constructor).
  assert (H3 : Forall (fun s => is_meaningful (trimmed s) = false) segments)
    by (repeat constructor).
  split; [exact H1|]. split; [exact H2|]. split; [exact H3|].
  exact (proj2 (proj2 (proj2
           (no_speech_only_without_segments segments "out.srt" ∅))) H1 H2 H3).
Defined.

(** C3 as stated fails: a too short text and a filler give no cue, and
    [main] still ends with status 0 after printing that the SRT is ready,
    without the no-speech report. *)
Lemma zero_cues_reported_as_success :
  let segments := [seg 0 1 "Hi"; seg 1 2 "Hmm."] in
  written_cues segments = []
  /\ snd (main_tail segments "out.srt" ∅) <> Exit 3
  /\ snd (main_tail segments "out.srt" ∅) = Exit 0
  /\ snd (fst (main_tail segments "out.srt" ∅))
     = [Open "out.srt"; Close; SrtReady "out.srt"]
  /\ fst (fst (main_tail segments "out.srt" ∅)) !! "out.srt"%string
     = Some EmptyString.
Proof. vm_compute. repeat split. discriminate. Qed.

(* ================================================================= *)
(** ** Timestamps *)

Local Open Scope Z_scope.

Lemma zeros_length (k : nat) : String.length (zeros k) = k.
Proof. induction k as [|k IH]; simpl; congruence. Qed.

Lemma string_app_length (a b : string) :
  String.length (a +:+ b) = (String.length a + String.length b)%nat.
Proof.
  induction a as [|x a IH]; [done|].
  change (S (String.length (a +:+ b))
          = S (String.length a + String.length b)%nat).
  now rewrite IH.
Qed.

(** A zero-padded field has its width, or more when the number needs it. *)
Lemma format_0d_length (w : nat) (n : Z) :
  String.length (format_0d w n) = Nat.max w (String.length (str_of_Z n)).
Proof. unfold format_0d. rewrite string_app_length, zeros_length. lia. Qed.

Lemma str_of_Z_below_1000 (n : Z) :
  0 <= n < 1000 ->
  (1 <= String.length (str_of_Z n) <= 3)%nat
  /\ (n < 100 -> (String.length (str_of_Z n) <= 2)%nat).
Proof.
  intros Hn.
  assert (Hall : forallb (fun k =>
            let l := String.length (str_of_Z (Z.of_nat k)) in
            (1 <=? l)%nat && (l <=? 3)%nat
            && ((100 <=? k)%nat || (l <=? 2)%nat)) (seq 0 1000) = true)
    by (vm_compute; reflexivity).
  rewrite forallb_forall in Hall.
  specialize (Hall (Z.to_nat n)).
  rewrite Z2Nat.id in Hall by lia.
  assert (Hin : In (Z.to_nat n) (seq 0 1000)) by (apply in_seq; lia).
  specialize (Hall Hin). cbv zeta in Hall.
  apply andb_true_iff in Hall as [Hall H3].
  apply andb_true_iff in Hall as [H1 H2].
  apply Nat.leb_le in H1, H2. split; [lia|]. intros Hlt.
  apply orb_true_iff in H3 as [H3|H3]; apply Nat.leb_le in H3; lia.
Qed.

(** The normalised [timedelta] holds the microseconds it was made from. *)
Lemma delta_of_microseconds (us : Z) (td : timedelta) :
  microseconds_to_delta us = Ok td -> delta_to_microseconds td = us.
Proof.
  unfold microseconds_to_delta, delta_to_microseconds, us_per_day, us_per_second.
  destruct (Z.abs _ <=? max_delta_days); [|discriminate].
  intros [= <-]. simpl. 
  pose proof (Z.div_mod us (86400 * 1000000) ltac:(lia)).
  pose proof (Z.div_mod (us mod (86400 * 1000000)) 1000000 ltac:(lia)).
  lia.
Qed.

Lemma render_ms_fields (ms : Z) :
  let hrs := ms / 3600000 in
  let mins := ms mod 3600000 / 60000 in
  let secs := ms mod 3600000 mod 60000 / 1000 in
  let millis := ms mod 3600000 mod 60000 mod 1000 in
  0 <= mins < 60 /\ 0 <= secs < 60 /\ 0 <= millis < 1000
  /\ ms = hrs * 3600000 + mins * 60000 + secs * 1000 + millis
  /\ (0 <= ms <-> 0 <= hrs).
Proof.
  intros hrs mins secs millis. subst hrs mins secs millis.
  repeat split; try (apply Z.div_pos || apply Z.mod_pos_bound); try lia;
    Z.to_euclidean_division_equations; lia.
Qed.

Lemma render_ms_length (ms : Z) :
  String.length (render_ms ms)
  = (Nat.max 2 (String.length (str_of_Z (ms / 3600000))) + 10)%nat.
Proof.
  destruct (render_ms_fields ms) as (Hm & Hs & Hl & _).
  unfold render_ms. rewrite !string_app_length, !format_0d_length.
  destruct (str_of_Z_below_1000 (ms mod 3600000 / 60000) ltac:(lia)) as [A1 A2].
  destruct (str_of_Z_below_1000 (ms mod 3600000 mod 60000 / 1000) ltac:(lia)) as [B1 B2].
  destruct (str_of_Z_below_1000 (ms mod 3600000 mod 60000 mod 1000) ltac:(lia)) as [C1 _].
  specialize (A2 ltac:(lia)). specialize (B2 ltac:(lia)). simpl String.length. lia.
Qed.

Lemma total_ms_of_not_positive (seconds : option float) :
  seconds = None
  \/ (exists x, seconds = Some x /\ PrimFloat.ltb 0 x = false) ->
  total_ms_of seconds = Ok 0.
Proof.
  intros [->|(x & -> & Hx)]; unfold total_ms_of, max0.
  - vm_compute. reflexivity.
  - rewrite Hx. vm_compute. reflexivity.
Qed.

Lemma parts_negative_exponent (m : positive) (e : Z) :
  e < 0 ->
  Zpos m = Float.int_part m e * 2 ^ (- e) + Float.frac_mantissa m e
  /\ 0 <= Float.frac_mantissa m e < 2 ^ (- e)
  /\ 0 <= Float.int_part m e.
Proof.
  intros He. unfold Float.int_part, Float.frac_mantissa.
  replace (0 <=? e) with false by (symmetry; apply Z.leb_gt; lia).
  rewrite Z.shiftr_div_pow2, Z.land_ones by lia.
  assert (Hp : 0 < 2 ^ (- e)) by (apply Z.pow_pos_nonneg; lia).
  pose proof (Z.div_mod (Zpos m) (2 ^ (- e)) ltac:(lia)).
  pose proof (Z.mod_pos_bound (Zpos m) (2 ^ (- e)) Hp).
  pose proof (Z.div_pos (Zpos m) (2 ^ (- e)) ltac:(lia) Hp).
  lia.
Qed.

Lemma parts_nonnegative_exponent (m : positive) (e : Z) :
  0 <= e ->
  Float.int_part m e = Zpos m * 2 ^ e /\ Float.frac_mantissa m e = 0.
Proof.
  intros He. unfold Float.int_part, Float.frac_mantissa.
  replace (0 <=? e) with true by (symmetry; apply Z.leb_le; lia).
  now rewrite Z.shiftl_mul_pow2 by lia.
Qed.

(** [math.modf] splits exactly. *)
Lemma modf_spec (x frac : float) (ip : Z) :
  Float.modf x = Ok (frac, ip) -> splits_into x frac ip.
Proof.
  unfold Float.modf, splits_into.
  destruct (Prim2SF x) as [s|s| |s m e]; try discriminate.
  - now intros [= <- <-].
  - intros [= <- <-].
    exists (Float.int_part m e), (Float.frac_mantissa m e).
    split; [done|]. split; [|done].
    destruct (0 <=? e) eqn:He.
    + apply Z.leb_le in He. now apply parts_nonnegative_exponent.
    + apply Z.leb_gt in He.
      destruct (parts_negative_exponent m e He) as (H1 & H2 & _). done.
Qed.

(** [int] cuts towards zero. *)
Lemma to_int_spec (y : float) (z : Z) :
  Float.to_int y = Ok z -> truncates_to y z.
Proof.
  unfold Float.to_int, truncates_to.
  destruct (Prim2SF y) as [s|s| |s m e]; try discriminate.
  - now intros [= <-].
  - intros [= <-]. exists (Float.int_part m e). split; [done|].
    destruct (0 <=? e) eqn:He.
    + apply Z.leb_le in He. now apply parts_nonnegative_exponent.
    + apply Z.leb_gt in He.
      destruct (parts_negative_exponent m e He) as (H1 & H2 & _). lia.
Qed.

(** [round] goes to the nearest integer, and to the even one from half
    way. *)
Lemma round_half_even_spec (y : float) (z : Z) :
  Float.round_half_even y = Ok z -> rounds_to y z.
Proof.
  unfold Float.round_half_even, rounds_to.
  destruct (Prim2SF y) as [s|s| |s m e]; try discriminate.
  - now intros [= <-].
  - intros [= <-]. eexists. split; [reflexivity|].
    destruct (0 <=? e) eqn:He.
    + apply Z.leb_le in He.
      destruct (parts_nonnegative_exponent m e He) as [-> ->]. reflexivity.
    + apply Z.leb_gt in He.
      destruct (parts_negative_exponent m e He) as (Hm & Hr & Hq).
      set (q := Float.int_part m e) in *.
      set (r := Float.frac_mantissa m e) in *.
      rewrite Z.shiftl_mul_pow2, Z.mul_1_l by lia.
      assert (Hpow : 2 ^ (- e) = 2 * 2 ^ (- e - 1)).
      { rewrite <- Z.pow_succ_r by lia. f_equal. lia. }
      set (h := 2 ^ (- e - 1)) in *. set (p := 2 ^ (- e)) in *.
      unfold nearest_even. fold p. clearbody q r p h.
      destruct (r ?= h) eqn:Hc; cbv iota.
      * apply Z.compare_eq in Hc.
        destruct (Z.odd q) eqn:Ho; cbv iota.
        -- split; [lia|]. intros _.
           rewrite Z.even_add, <- Z.negb_odd, Ho. reflexivity.
        -- split; [lia|]. intros _. now rewrite <- Z.negb_odd, Ho.
      * change (r < h) in Hc. split; lia.
      * apply Z.compare_gt_iff in Hc. split; lia.
Qed.

(** A [timedelta] holds less than 10^9 days: 86 400 000 000 000 s. *)
Lemma microseconds_to_delta_range (us : Z) :
  0 <= us ->
  (us < 86400000000000000000 ->
   exists td, microseconds_to_delta us = Ok td
              /\ delta_to_microseconds td = us)
  /\ (86400000000000000000 <= us ->
      microseconds_to_delta us = Raise OverflowError).
Proof.
  intros H0. unfold microseconds_to_delta.
  change us_per_day with 86400000000. unfold max_delta_days.
  pose proof (Z.div_pos us 86400000000 H0 ltac:(lia)) as Hd.
  split; intros H.
  - assert (us / 86400000000 < 1000000000)
      by (apply Z.div_lt_upper_bound; lia).
    replace (Z.abs (us / 86400000000) <=? 999999999) with true
      by (symmetry; apply Z.leb_le; lia).
    eexists. split; [reflexivity|].
    apply delta_of_microseconds. unfold microseconds_to_delta.
    change us_per_day with 86400000000. unfold max_delta_days.
    now replace (Z.abs (us / 86400000000) <=? 999999999) with true
      by (symmetry; apply Z.leb_le; lia).
  - assert (1000000000 <= us / 86400000000)
      by (apply Z.div_le_lower_bound; lia).
    now replace (Z.abs (us / 86400000000) <=? 999999999) with false
      by (symmetry; apply Z.leb_gt; lia).
Qed.

(** C6, as the code has it. [format_timestamp] treats [None] as 0 and
    maps every value that is not greater than 0 (negative, zero, NaN) to
    "00:00:00,000". A positive value goes through [timedelta]: it is
    split exactly into its whole seconds and a fraction, the fraction is
    multiplied by 10^6 in binary64, and that product is rounded to the
    nearest whole number of microseconds, ties to even. When the
    microseconds reach 86 400 000 000 000 s, that is 10^9 days, the call
    raises OverflowError, as it does for an infinite value. Below that,
    the whole milliseconds are the truncation toward zero of 1000 times
    the binary64 quotient of the microsecond count by 10^6, not of
    [seconds * 1000] itself. The fields come from the milliseconds by
    successive division and remainder by 3600000, 60000 and 1000;
    minutes and seconds are below 60 and milliseconds below 1000, and
    the string has two digits or more for the hours, then ":MM:SS,mmm".
    3725.4321 gives "01:02:05,432". *)
Theorem format_timestamp_fields (seconds : option float) :
  (seconds = None
   \/ (exists x, seconds = Some x /\ PrimFloat.ltb 0 x = false) ->
   format_timestamp seconds = Ok "00:00:00,000"%string)
  /\ (forall x frac ip us,
      seconds = Some x -> PrimFloat.ltb 0 x = true ->
      Float.modf x = Ok (frac, ip) ->
      Float.round_half_even (PrimFloat.mul frac 1000000%float) = Ok us ->
      splits_into x frac ip
      /\ rounds_to (PrimFloat.mul frac 1000000%float) us
      /\ (86400000000000000000 <= ip * 1000000 + us ->
          format_timestamp seconds = Raise OverflowError)
      /\ (0 <= ip * 1000000 + us < 86400000000000000000 ->
          total_ms_of seconds =
            Float.to_int
              (PrimFloat.mul (Float.truediv (ip * 1000000 + us) 1000000)
                 1000%float)))
  /\ (forall y ms, Float.to_int y = Ok ms -> truncates_to y ms)
  /\ (forall s, format_timestamp seconds = Ok s ->
      exists ms,
        total_ms_of seconds = Ok ms
        /\ s = (format_0d 2 (ms / 3600000) +:+ ":"
                +:+ format_0d 2 (ms mod 3600000 / 60000) +:+ ":"
                +:+ format_0d 2 (ms mod 3600000 mod 60000 / 1000) +:+ ","
                +:+ format_0d 3 (ms mod 3600000 mod 60000 mod 1000))%string
        /\ 0 <= ms mod 3600000 / 60000 < 60
        /\ 0 <= ms mod 3600000 mod 60000 / 1000 < 60
        /\ 0 <= ms mod 3600000 mod 60000 mod 1000 < 1000
        /\ ms = ms / 3600000 * 3600000 + ms mod 3600000 / 60000 * 60000
                + ms mod 3600000 mod 60000 / 1000 * 1000
                + ms mod 3600000 mod 60000 mod 1000
        /\ String.length s
           = (Nat.max 2 (String.length (str_of_Z (ms / 3600000))) + 10)%nat)
  /\ format_timestamp (Some infinity) = Raise OverflowError
  /\ format_timestamp (Some 3725.4321%float) = Ok "01:02:05,432"%string.
Proof.
  split; [|split; [|split; [|split; [|split]]]].
  - intros H. unfold format_timestamp.
    now rewrite (total_ms_of_not_positive seconds H).
  - intros x frac ip us -> Hx Hmodf Hround.
    split; [now apply modf_spec|]. split; [now apply round_half_even_spec|].
    assert (Htd : timedelta_of_seconds (max0 (Flt x))
                  = microseconds_to_delta (ip * 1000000 + us)).
    { unfold max0. rewrite Hx. unfold timedelta_of_seconds.
      rewrite Hmodf. simpl. rewrite Hround. reflexivity. }
    split.
    + intros Hbig. unfold format_timestamp, total_ms_of. rewrite Htd.
      destruct (microseconds_to_delta_range (ip * 1000000 + us) ltac:(lia))
        as [_ Hraise].
      now rewrite (Hraise Hbig).
    + intros [H0 Hsmall]. unfold total_ms_of. rewrite Htd.
      destruct (microseconds_to_delta_range (ip * 1000000 + us) H0)
        as [Hok _].
      destruct (Hok Hsmall) as (td & -> & Eus). simpl.
      unfold total_seconds. now rewrite Eus.
  - intros y ms. apply to_int_spec.
  - intros s Hs. unfold format_timestamp in Hs.
    destruct (total_ms_of seconds) as [ms|e]; simpl in Hs; [|discriminate].
    injection Hs as <-. exists ms.
    destruct (render_ms_fields ms) as (Hm & Hse & Hl & Hsum & _).
    split; [done|]. split; [reflexivity|].
    repeat (split; [done|]). apply render_ms_length.
  - vm_compute. reflexivity.
  - vm_compute. reflexivity.
Qed.

(** 0.0000025 s: the fraction times 10^6 is the float 2.5, half way
    between 2 and 3 microseconds, and it is rounded to the even one. *)
Lemma format_timestamp_fields_witness :
  PrimFloat.mul 0.0000025 1000000 = 2.5%float
  /\ PrimFloat.ltb 0 0.0000025%float = true
  /\ Float.modf 0.0000025%float = Ok (0.0000025%float, 0)
  /\ Float.round_half_even (PrimFloat.mul 0.0000025 1000000) = Ok 2
  /\ splits_into 0.0000025 0.0000025 0
  /\ rounds_to (PrimFloat.mul 0.0000025 1000000) 2
  /\ total_ms_of (Some 0.0000025%float) =
       Float.to_int
         (PrimFloat.mul (Float.truediv (0 * 1000000 + 2) 1000000)
            1000%float)
  /\ format_timestamp (Some (-2.5)%float) = Ok "00:00:00,000"%string.
Proof.
  assert (Hx : PrimFloat.ltb 0 0.0000025%float = true) by reflexivity.
  assert (Hm : Float.modf 0.0000025%float = Ok (0.0000025%float, 0))
    by reflexivity.
  assert (Hr : Float.round_half_even (PrimFloat.mul 0.0000025 1000000) = Ok 2)
    by reflexivity.
  destruct (proj1 (proj2 (format_timestamp_fields (Some 0.0000025%float)))
              0.0000025%float 0.0000025%float 0 2 eq_refl Hx Hm Hr)
    as (H1 & H2 & _ & H4).
  split; [reflexivity|].
  split; [exact Hx|]. split; [exact Hm|]. split; [exact Hr|].
  split; [exact H1|]. split; [exact H2|]. split.
  - apply H4. lia.
  - apply (proj1 (format_timestamp_fields (Some (-2.5)%float))).
    right. exists (-2.5)%float. split; reflexivity.
Defined.

(** C6 as stated fails. 0.0009999996 s is 999.9996 microseconds:
    [timedelta] rounds it to 1000, and the result is one millisecond where
    the truncation of [seconds * 1000] gives none. 1.0050000001 s becomes
    1005000 microseconds, whose quotient by 10^6 times 1000 is just below
    1005: the result is 1004 ms where the truncation of [seconds * 1000]
    gives 1005. And not every value is formatted: 8.64e13 s is more days
    than a [timedelta] holds. *)
Lemma milliseconds_not_truncated_seconds :
  format_timestamp (Some 0.0009999996%float)
  <> spec_format_timestamp (Some 0.0009999996%float)
  /\ format_timestamp (Some 0.0009999996%float) = Ok "00:00:00,001"%string
  /\ spec_format_timestamp (Some 0.0009999996%float) = Ok "00:00:00,000"%string
  /\ format_timestamp (Some 1.0050000001%float) = Ok "00:00:01,004"%string
  /\ spec_format_timestamp (Some 1.0050000001%float) = Ok "00:00:01,005"%string
  /\ format_timestamp (Some 8.64e13%float) = Raise OverflowError
  /\ spec_format_timestamp (Some 3725.4321%float) = Ok "01:02:05,432"%string.
Proof. vm_compute. repeat split. discriminate. Qed.

(* ================================================================= *)
(** * Further properties of the code *)

(** ** Trimming and case *)

Local Open Scope nat_scope.

Lemma lstrip_head (s : string) (c : ascii) (r : string) :
  lstrip s = String c r -> isspace c = false.
Proof.
  induction s as [|x s IH]; simpl; [discriminate|].
  destruct (isspace x) eqn:Hx; [exact IH|]. intros [= <- <-]. exact Hx.
Qed.

Lemma lstrip_fixed (c : ascii) (r : string) :
  isspace c = false -> lstrip (String c r) = String c r.
Proof. intros H. simpl. now rewrite H. Qed.

Lemma rstrip_head (c : ascii) (r : string) :
  isspace c = false -> exists r', rstrip (String c r) = String c r'.
Proof.
  intros H. simpl. destruct (rstrip r); [rewrite H|]; eauto.
Qed.

Lemma rstrip_idempotent (s : string) : rstrip (rstrip s) = rstrip s.
Proof.
  induction s as [|c r IH]; [done|]. simpl.
  destruct (rstrip r) as [|x r'] eqn:E.
  - destruct (isspace c) eqn:Hc; [done|]. simpl. now rewrite Hc.
  - simpl in IH |- *. now rewrite IH.
Qed.

Lemma rstrip_last (s a : string) (c : ascii) :
  rstrip s = (a +:+ String c EmptyString)%string -> isspace c = false.
Proof.
  revert a. induction s as [|x r IH]; intros a; simpl.
  - destruct a; discriminate.
  - destruct (rstrip r) as [|y r'] eqn:E.
    + destruct (isspace x) eqn:Hx; [destruct a; discriminate|].
      destruct a as [|z a]; [now intros [= <-]|].
      intros [= _ H]. destruct a; discriminate.
    + destruct a as [|z a]; [discriminate|].
      intros [= _ H]. now apply (IH a).
Qed.

(** [strip] is idempotent. *)
Lemma strip_idempotent (s : string) : strip (strip s) = strip s.
Proof.
  unfold strip.
  assert (H : lstrip (rstrip (lstrip s)) = rstrip (lstrip s)).
  { destruct (lstrip s) as [|c r] eqn:E; [done|].
    pose proof (lstrip_head _ _ _ E) as Hc.
    destruct (rstrip_head c r Hc) as [r' ->]. now apply lstrip_fixed. }
  rewrite H. apply rstrip_idempotent.
Qed.





(** X1. The filter gives the same verdict on a text and on its trimmed
    form, so that [write_srt], which trims before it asks, decides as
    [is_meaningful] would on the raw text; and a trimmed text has no
    white space at either end. *)
Theorem is_meaningful_strip (t : string) :
  is_meaningful (strip t) = is_meaningful t
  /\ strip (strip t) = strip t
  /\ (forall c r, strip t = String c r -> isspace c = false)
  /\ (forall a c, strip t = (a +:+ String c EmptyString)%string ->
      isspace c = false).
Proof.
  split; [|split; [apply strip_idempotent|split]].
  - unfold is_meaningful. rewrite strip_idempotent.
    destruct t as [|c r]; [done|].
    destruct (strip (String c r)) as [|x s] eqn:E; [done|]. reflexivity.
  - intros c r E. unfold strip in E.
    destruct (lstrip t) as [|x s] eqn:El; [discriminate|].
    pose proof (lstrip_head _ _ _ El) as Hx.
    destruct (rstrip_head x s Hx) as [r' Hr]. rewrite Hr in E.
    now injection E as <- _.
  - intros a c E. unfold strip in E. now apply rstrip_last in E.
Qed.

Lemma isspace_lower_char (c : ascii) : isspace (lower_char c) = isspace c.
Proof. destruct c as [[] [] [] [] [] [] [] []]; reflexivity. Qed.

Lemma lower_char_idempotent (c : ascii) :
  lower_char (lower_char c) = lower_char c.
Proof. destruct c as [[] [] [] [] [] [] [] []]; reflexivity. Qed.

Lemma lower_idempotent (s : string) : lower (lower s) = lower s.
Proof.
  induction s as [|c r IH]; simpl; [done|].
  now rewrite lower_char_idempotent, IH.
Qed.

Lemma lstrip_lower (s : string) : lstrip (lower s) = lower (lstrip s).
Proof.
  induction s as [|c r IH]; simpl; [done|].
  rewrite isspace_lower_char. now destruct (isspace c).
Qed.

Lemma rstrip_lower (s : string) : rstrip (lower s) = lower (rstrip s).
Proof.
  induction s as [|c r IH]; simpl; [done|].
  rewrite IH, isspace_lower_char.
  destruct (rstrip r); simpl; [now destruct (isspace c)|done].
Qed.

Lemma strip_lower (s : string) : strip (lower s) = lower (strip s).
Proof. unfold strip. now rewrite lstrip_lower, rstrip_lower. Qed.

Lemma truthy_lower (s : string) : truthy (lower s) = truthy s.
Proof. now destruct s. Qed.

(** X2. On texts whose code points are all below 256, where lower-casing
    keeps the length, the filter does not see letter case: two texts
    with the same lower-cased form get the same verdict, and so does a
    text and its lower-cased form. *)
Theorem is_meaningful_case_insensitive (a b : string) :
  lower a = lower b ->
  is_meaningful a = is_meaningful b
  /\ is_meaningful (lower a) = is_meaningful a.
Proof.
  assert (H : forall t, is_meaningful t
    = if negb (truthy (lower t)) || (String.length (strip (lower t)) <? 3)
      then false
      else if str_in (strip (lower t)) fillers then false else true).
  { intros t. unfold is_meaningful.
    now rewrite truthy_lower, strip_lower, lower_length. }
  intros E. split.
  - now rewrite (H a), (H b), E.
  - now rewrite (H (lower a)), (H a), lower_idempotent.
Qed.

Lemma is_meaningful_case_insensitive_witness :
  lower "HELLO There." = lower "hello THERE."
  /\ is_meaningful "HELLO There." = is_meaningful "hello THERE."
  /\ is_meaningful "HELLO There." = true.
Proof.
  assert (E : lower "HELLO There." = lower "hello THERE.") by reflexivity.
  split; [exact E|]. split; [|reflexivity].
  exact (proj1 (is_meaningful_case_insensitive _ _ E)).
Defined.

(* ================================================================= *)
(** ** What the loop writes *)

Lemma body_cues_meaningful (i : nat) (s : Segment) (st st' : loop_state)
    (evs : list event) :
  body i s st = Ok (st', evs) ->
  Forall (fun c => cue_text c = trimmed s
                   /\ is_meaningful (trimmed s) = true) (cues evs).
Proof.
  unfold body.
  destruct (format_timestamp (start s)) as [x|]; simpl; [|discriminate].
  destruct (format_timestamp (end_ s)) as [y|]; simpl; [|discriminate].
  destruct (is_meaningful (trimmed s)) eqn:Hm; simpl.
  2:{ intros [= <- <-]. constructor. }
  destruct (same_as_prev (prev_text st) (trimmed s)).
  2:{ intros [= <- <-]. repeat constructor. }
  destruct (repeat_count st) as [|[|[|k]]]; simpl; intros [= <- <-];
    repeat constructor.
Qed.

Lemma loop_cues_meaningful (segs : list Segment) (i : nat) (st : loop_state) :
  Forall (fun c => is_meaningful (cue_text c) = true
                   /\ strip (cue_text c) = cue_text c)
    (cues (fst (for_loop i segs st))).
Proof.
  revert i st. induction segs as [|s segs IH]; intros i st; simpl.
  - constructor.
  - destruct (body i s st) as [[st1 evs1]|e] eqn:Hb; simpl; [|constructor].
    specialize (IH (S i) st1).
    destruct (for_loop (S i) segs st1) as [evs2 r]. simpl in *.
    rewrite cues_app. apply Forall_app. split; [|done].
    eapply Forall_impl; [exact (body_cues_meaningful _ _ _ _ _ Hb)|].
    simpl. intros c [-> Hm]. split; [done|]. apply strip_idempotent.
Qed.

(** X3. Every text that [write_srt] writes passes the filter: it is no
    filler, it has three characters or more, and it is trimmed, with no
    white space at its start or end. *)
Theorem written_texts_are_meaningful (segments : list Segment) :
  Forall (fun c => is_meaningful (cue_text c) = true
                   /\ 3 <= String.length (cue_text c)
                   /\ strip (cue_text c) = cue_text c
                   /\ ~ In (lower (cue_text c))
                          ["aaaa."; "hmm."; "mmm."; "..."]%string)
    (written_cues segments).
Proof.
  eapply Forall_impl; [exact (loop_cues_meaningful segments 1 init)|].
  simpl. intros c [Hm Hs]. split; [done|].
  unfold is_meaningful in Hm. rewrite Hs in Hm.
  destruct (truthy (cue_text c)); cbn [negb orb] in Hm; [|discriminate].
  destruct (String.length (cue_text c) <? 3) eqn:Hl; [discriminate|].
  apply Nat.ltb_ge in Hl. split; [done|]. split; [done|].
  destruct (str_in (lower (cue_text c)) fillers) eqn:Hf; [discriminate|].
  intros Hin. assert (In (lower (cue_text c)) fillers) as Hin'.
  { unfold fillers. simpl in *. tauto. }
  apply str_in_In in Hin'. congruence.
Qed.

Lemma loop_no_cue_all_filtered (segs : list Segment) (i : nat) :
  Forall (fun s => timestamps_ok s = true) segs ->
  cues (fst (for_loop i segs init)) = [] ->
  Forall (fun s => is_meaningful (trimmed s) = false) segs.
Proof.
  revert i. induction segs as [|s segs IH]; intros i Hts Hc; [constructor|].
  apply Forall_cons in Hts as [Hs Hts].
  destruct (is_meaningful (trimmed s)) eqn:Hm.
  - exfalso. cbn [for_loop] in Hc. rewrite body_keep in Hc by done.
    cbn [init prev_text same_as_prev] in Hc.
    destruct (for_loop (S i) segs _) as [evs r]. simpl in Hc.
    unfold cues in Hc. simpl in Hc. discriminate.
  - constructor; [done|]. apply (IH (S i)); [done|].
    cbn [for_loop] in Hc.
    destruct (body_skip i s init Hm) as [[e He]|He].
    + exfalso. apply andb_true_iff in Hs as [H1 H2]. unfold body in He.
      rewrite (stamp_ok _ H1), (stamp_ok _ H2) in He. simpl in He.
      rewrite Hm in He. discriminate.
    + rewrite He in Hc. destruct (for_loop (S i) segs init) as [evs r].
      exact Hc.
Qed.

(** X4. When all timestamps can be formatted, [write_srt] writes no cue
    exactly when every segment fails the filter: the first segment that
    passes it is always written, so repeat suppression alone never
    empties the document. *)
Theorem no_cue_iff_all_filtered (segments : list Segment) :
  Forall (fun s => timestamps_ok s = true) segments ->
  (written_cues segments = []
   <-> Forall (fun s => is_meaningful (trimmed s) = false) segments).
Proof.
  intros Hts. split.
  - apply loop_no_cue_all_filtered. exact Hts.
  - intros Hf. unfold written_cues.
    now destruct (all_filtered_no_event segments 1 init Hf) as [-> _].
Qed.

Lemma no_cue_iff_all_filtered_witness :
  let segments := [seg 0 1 "Hi"; seg 1 2 "..."; seg 2 3 ""] in
  Forall (fun s => timestamps_ok s = true) segments
  /\ Forall (fun s => is_meaningful (trimmed s) = false) segments
  /\ written_cues segments = [].
Proof.
  intros segments.
  assert (Hts : Forall (fun s => timestamps_ok s = true) segments)
    by (repeat constructor).
  assert (Hf : Forall (fun s => is_meaningful (trimmed s) = false) segments)
    by (repeat constructor).
  split; [exact Hts|]. split; [exact Hf|].
  exact (proj2 (no_cue_iff_all_filtered segments Hts) Hf).
Defined.

(* ================================================================= *)
(** ** Repeats in the whole document *)


Lemma run_of_same (t : string) (l : list string) :
  run_of t (t :: l) = S (run_of t l).
Proof. simpl. now rewrite String.eqb_refl. Qed.

(** The shape of an iteration that does not raise. *)
Lemma body_ok_inv (i : nat) (s : Segment) (st st' : loop_state)
    (evs : list event) :
  body i s st = Ok (st', evs) ->
  (is_meaningful (trimmed s) = false /\ st' = st /\ evs = [])
  \/ (is_meaningful (trimmed s) = true
      /\ exists c, cue_text c = trimmed s /\ index c = i
         /\ (st', evs) =
            if same_as_prev (prev_text st) (trimmed s) then
              if 3 <=? S (repeat_count st)
              then (mk_state (prev_text st) (S (repeat_count st)),
                    if S (repeat_count st) =? 3
                    then [Warn (trimmed s)] else [])
              else (mk_state (Some (trimmed s)) (S (repeat_count st)),
                    [Write c])
            else (mk_state (Some (trimmed s)) 0, [Write c])).
Proof.
  unfold body.
  destruct (format_timestamp (start s)) as [x|]; simpl; [|discriminate].
  destruct (format_timestamp (end_ s)) as [y|]; simpl; [|discriminate].
  destruct (is_meaningful (trimmed s)) eqn:Hm; simpl.
  2:{ intros [= <- <-]. now left. }
  intros Hb. right. split; [done|].
  exists (mk_Cue i x y (trimmed s)). split; [done|]. split; [done|].
  destruct (same_as_prev (prev_text st) (trimmed s)); [|congruence].
  destruct (repeat_count st) as [|[|[|k]]]; simpl in *; congruence.
Qed.

(** The texts written from a state [st] on: no run exceeds three, and a
    run of [prev_text] at the start is as short as [repeat_count]
    requires. *)
Lemma loop_runs_bounded (segs : list Segment) (i : nat) (st : loop_state) :
  let ts := map cue_text (cues (fst (for_loop i segs st))) in
  runs_bounded ts
  /\ (forall t, prev_text st = Some t ->
      run_of t ts <= 2 - Nat.min (repeat_count st) 2).
Proof.
  revert i st. induction segs as [|s segs IH]; intros i st; simpl.
  - split; [done|]. intros; lia.
  - destruct (body i s st) as [[st1 evs1]|e] eqn:Hb; simpl.
    2:{ split; [done|]. intros; lia. }
    specialize (IH (S i) st1). simpl in IH. destruct IH as [IHb IHr].
    destruct (for_loop (S i) segs st1) as [evs2 r]. simpl in *.
    rewrite cues_app, map_app.
    set (ts2 := map cue_text (cues evs2)) in *.
    destruct (body_ok_inv _ _ _ _ _ Hb)
      as [(Hm & -> & ->)|(Hm & c & Hc & _ & Hr)]; [done|].
    destruct (same_as_prev (prev_text st) (trimmed s)) eqn:Hsame.
    + apply same_as_prev_true in Hsame.
      destruct (3 <=? S (repeat_count st)) eqn:Hrc.
      * injection Hr as -> ->. apply Nat.leb_le in Hrc.
        specialize (IHr (trimmed s) Hsame). simpl in IHr.
        rewrite cues_warning. simpl. split; [done|].
        intros t Ht. rewrite Hsame in Ht. injection Ht as <-. lia.
      * injection Hr as -> ->. apply Nat.leb_gt in Hrc.
        specialize (IHr (trimmed s) eq_refl). simpl in IHr.
        change (map cue_text (cues [Write c]) ++ ts2) with (cue_text c :: ts2).
        rewrite Hc.
        split; [split; [lia|done]|].
        intros t Ht. rewrite Hsame in Ht. injection Ht as <-.
        rewrite run_of_same. lia.
    + injection Hr as -> ->.
      specialize (IHr (trimmed s) eq_refl). simpl in IHr.
      change (map cue_text (cues [Write c]) ++ ts2) with (cue_text c :: ts2).
      rewrite Hc.
      split; [split; [lia|done]|].
      intros t Ht. destruct (String.eqb (trimmed s) t) eqn:E.
      * apply String.eqb_eq in E. subst t. exfalso.
        unfold same_as_prev in Hsame. rewrite Ht in Hsame.
        rewrite (meaningful_truthy _ Hm), String.eqb_refl in Hsame.
        discriminate.
      * simpl. rewrite E. lia.
Qed.

Lemma runs_bounded_no_four (l1 l2 : list string) (t : string) :
  ~ runs_bounded (l1 ++ [t; t; t; t] ++ l2).
Proof.
  induction l1 as [|x l1 IH]; simpl.
  - rewrite !String.eqb_refl. intros [H _]. lia.
  - intros [_ H]. exact (IH H).
Qed.

(** X5. Nowhere in the document do four consecutive cues carry the same
    text, whatever the input: also when segments that fail the filter
    stand between the repeats, since those do not reset the count. *)
Theorem never_four_equal_cues_in_a_row
    (segments : list Segment) (l1 l2 : list string) (t : string) :
  map cue_text (written_cues segments) <> l1 ++ [t; t; t; t] ++ l2.
Proof.
  intros E. destruct (loop_runs_bounded segments 1 init) as [H _].
  simpl in H. unfold written_cues in E. rewrite E in H.
  exact (runs_bounded_no_four l1 l2 t H).
Qed.

(* ================================================================= *)
(** ** Streaming, failure and the file system *)

(** X6. The loop is append-only: the events of a prefix of the input,
    cues and warnings alike, are the beginning of the events of the whole
    input, and every cue after them carries a later position. What has
    been written does not depend on the segments still to come. *)
Theorem written_prefix_is_stable (a b : list Segment) :
  exists rest,
    fst (for_loop 1 (a ++ b) init) = fst (for_loop 1 a init) ++ rest
    /\ written_cues (a ++ b) = written_cues a ++ cues rest
    /\ Forall (fun c => length a < index c) (cues rest).
Proof.
  unfold written_cues. rewrite for_loop_app.
  destruct (for_loop 1 a init) as [evs1 [st1|e]] eqn:E1.
  - pose proof (loop_cues_positions b (1 + length a) st1) as [Hpos _].
    destruct (for_loop (1 + length a) b st1) as [evs2 r]. simpl in *.
    exists evs2. split; [done|]. split; [apply cues_app|].
    eapply Forall_impl; [exact Hpos|]. simpl. intros c [H _]. lia.
  - exists []. simpl. rewrite !app_nil_r. repeat split. constructor.
Qed.

Lemma body_bad_timestamp (i : nat) (s : Segment) (st : loop_state) :
  timestamps_ok s = false -> exists e, body i s st = Raise e.
Proof.
  unfold timestamps_ok, body. intros H.
  destruct (format_timestamp (start s)) as [x|e]; simpl in *; [|eauto].
  destruct (format_timestamp (end_ s)) as [y|e]; simpl in *; [discriminate|eauto].
Qed.

Lemma write_srt_fs (segments : list Segment) (out_path : string)
    (fs : gmap string string) :
  fst (fst (write_srt segments out_path fs))
  = <[out_path := foldr (fun c acc => (render_cue c +:+ acc)%string)
                    EmptyString (written_cues segments)]> fs.
Proof.
  apply map_eq. intros p. destruct (decide (p = out_path)) as [->|Hp].
  - rewrite lookup_insert_eq. apply write_srt_document.
  - rewrite lookup_insert_ne by done.
    rewrite write_srt_unfold. cbn [fst].
    destruct (apply_loop_events out_path (fst (for_loop 1 segments init))
                (<[out_path := EmptyString]> fs) EmptyString
                (for_loop_events segments 1 init)) as [_ H].
    { apply lookup_insert_eq. }
    rewrite (H p Hp). now apply lookup_insert_ne.
Qed.

(** X7. A segment whose start or end cannot be formatted stops
    [write_srt] with the exception, whether or not its text would pass
    the filter, because the timestamps are formatted first. The cues of
    the segments before it stay in the file; the segment itself and what
    follows it are not written. *)
Theorem bad_timestamp_aborts (a b : list Segment) (s : Segment)
    (out_path : string) (fs : gmap string string) :
  Forall (fun x => timestamps_ok x = true) a ->
  timestamps_ok s = false ->
  (exists e, snd (write_srt (a ++ s :: b) out_path fs) = Raise e)
  /\ written_cues (a ++ s :: b) = written_cues a
  /\ fst (fst (write_srt (a ++ s :: b) out_path fs))
     = fst (fst (write_srt a out_path fs)).
Proof.
  intros Ha Hs.
  destruct (loop_prev_text a 1 init Ha) as (evs1 & st1 & E1 & _).
  destruct (body_bad_timestamp (1 + length a) s st1 Hs) as [e He].
  assert (E : for_loop 1 (a ++ s :: b) init = (evs1, Raise e)).
  { rewrite for_loop_app, E1. cbn [for_loop]. rewrite He.
    now rewrite app_nil_r. }
  assert (Hc : written_cues (a ++ s :: b) = written_cues a).
  { unfold written_cues. now rewrite E, E1. }
  split; [|split; [exact Hc|]].
  - exists e. rewrite write_srt_unfold. cbn [snd]. now rewrite E.
  - now rewrite !write_srt_fs, Hc.
Qed.

Lemma bad_timestamp_aborts_witness :
  let a := [seg 0 1 "Hello."; seg 1 2 "World."] in
  let s := seg infinity 3 "Hi" in
  let b := [seg 3 4 "Later."] in
  Forall (fun x => timestamps_ok x = true) a
  /\ timestamps_ok s = false
  /\ (exists e, snd (write_srt (a ++ s :: b) "o.srt" ∅) = Raise e)
  /\ written_cues (a ++ s :: b) = written_cues a
  /\ fst (fst (write_srt (a ++ s :: b) "o.srt" ∅))
     = fst (fst (write_srt a "o.srt" ∅)).
Proof.
  intros a s b.
  assert (Ha : Forall (fun x => timestamps_ok x = true) a)
    by (repeat constructor).
  assert (Hs : timestamps_ok s = false) by reflexivity.
  split; [exact Ha|]. split; [exact Hs|].
  exact (bad_timestamp_aborts a b s "o.srt" ∅ Ha Hs).
Defined.

(** X8. [write_srt] replaces the file and does not append to it: a run
    on a path that an earlier run has written leaves what the later run
    alone would leave, and nothing of the earlier document. *)
Theorem write_srt_overwrites (s1 s2 : list Segment) (p : string)
    (fs : gmap string string) :
  fst (fst (write_srt s2 p (fst (fst (write_srt s1 p fs)))))
  = fst (fst (write_srt s2 p fs)).
Proof. rewrite !write_srt_fs. apply insert_insert_eq. Qed.

(* ================================================================= *)
(** ** How [main] ends *)

Lemma body_ok_timestamps (i : nat) (s : Segment) (st : loop_state)
    (r : loop_state * list event) :
  body i s st = Ok r -> timestamps_ok s = true.
Proof.
  unfold body, timestamps_ok.
  destruct (format_timestamp (start s)); simpl; [|discriminate].
  destruct (format_timestamp (end_ s)); simpl; [done|discriminate].
Qed.

(** The loop ends without an exception exactly when every segment has
    timestamps that can be formatted. *)
Lemma for_loop_ok_iff (segs : list Segment) (i : nat) (st : loop_state) :
  (exists st', snd (for_loop i segs st) = Ok st')
  <-> Forall (fun s => timestamps_ok s = true) segs.
Proof.
  split.
  - revert i st. induction segs as [|s segs IH]; intros i st [st' H];
      [constructor|].
    cbn [for_loop] in H.
    destruct (body i s st) as [[st1 evs1]|e] eqn:Hb; [|discriminate].
    constructor; [eapply body_ok_timestamps, Hb|].
    apply (IH (S i) st1). exists st'.
    now destruct (for_loop (S i) segs st1).
  - intros Hts. destruct (loop_prev_text segs i st Hts) as (evs & st' & E & _).
    exists st'. now rewrite E.
Qed.

Lemma preview_ok_iff (segs : list Segment) :
  preview segs = Ok tt <-> Forall (fun s => timestamps_ok s = true) segs.
Proof.
  split; [|apply preview_ok].
  induction segs as [|s segs IH]; intros H; [constructor|].
  simpl in H. unfold preview_one in H.
  destruct (format_timestamp (start s)) eqn:E1; simpl in H; [|discriminate].
  destruct (format_timestamp (end_ s)) eqn:E2; simpl in H; [|discriminate].
  constructor; [|auto]. unfold timestamps_ok. now rewrite E1, E2.
Qed.







Lemma preview_bad (segs : list Segment) (s : Segment) :
  In s segs -> timestamps_ok s = false -> exists e, preview segs = Raise e.
Proof.
  intros Hin Hs. destruct (preview segs) as [[]|e] eqn:E; [|eauto].
  apply preview_ok_iff in E. rewrite Forall_forall in E.
  apply list_elem_of_In in Hin. specialize (E s Hin). congruence.
Qed.

(** X10. When one of the first three or of the last three segments has a
    timestamp that cannot be formatted, [main] dies of the exception
    while it prints its preview: before the no-speech test and before
    the output is opened, so no file is created or truncated and nothing
    of the run is recorded. *)
Theorem preview_failure_leaves_no_file (segments : list Segment)
    (s : Segment) (out_srt : string) (fs : gmap string string) :
  In s (firstn 3 segments ++ skipn (length segments - 3) segments) ->
  timestamps_ok s = false ->
  exists e, main_tail segments out_srt fs = (fs, [], Uncaught e).
Proof.
  intros Hin Hs. destruct (preview_bad _ s Hin Hs) as [e He].
  exists e. unfold main_tail. now rewrite He.
Qed.

Lemma preview_failure_leaves_no_file_witness :
  let bad := seg 0 infinity "Hello." in
  let segments := [seg 0 1 "One."; seg 1 2 "Two."; seg 2 3 "Three.";
                   seg 3 4 "Four."; bad; seg 5 6 "Six."] in
  In bad (firstn 3 segments ++ skipn (length segments - 3) segments)
  /\ timestamps_ok bad = false
  /\ exists e, main_tail segments "o.srt" {[ "o.srt"%string := "old"%string ]}
               = ({[ "o.srt"%string := "old"%string ]}, [], Uncaught e).
Proof.
  intros bad segments.
  assert (Hin : In bad (firstn 3 segments
                        ++ skipn (length segments - 3) segments))
    by (simpl; tauto).
  assert (Hs : timestamps_ok bad = false) by reflexivity.
  split; [exact Hin|]. split; [exact Hs|].
  exact (preview_failure_leaves_no_file segments bad "o.srt" _ Hin Hs).
Defined.

(** X11. When the previewed segments are fine but a segment between them
    has a timestamp that cannot be formatted, [main] dies inside
    [write_srt]: the output file has been created and holds the cues
    written so far, and the "SRT ready" and no-speech lines are never
    printed. *)
Theorem late_failure_leaves_partial_file (segments : list Segment)
    (out_srt : string) (fs : gmap string string) :
  Forall (fun s => timestamps_ok s = true)
    (firstn 3 segments ++ skipn (length segments - 3) segments) ->
  ~ Forall (fun s => timestamps_ok s = true) segments ->
  exists e,
    main_tail segments out_srt fs
    = (<[out_srt := foldr (fun c acc => (render_cue c +:+ acc)%string)
                      EmptyString (written_cues segments)]> fs,
       Open out_srt :: fst (for_loop 1 segments init) ++ [Close],
       Uncaught e).
Proof.
  intros Hp Hbad. unfold main_tail. rewrite (preview_ok _ Hp).
  destruct segments as [|s segments]; [exfalso; apply Hbad; constructor|].
  pose proof (write_srt_fs (s :: segments) out_srt fs) as Hfs.
  rewrite write_srt_unfold in Hfs |- *. cbn [fst snd] in Hfs.
  destruct (snd (for_loop 1 (s :: segments) init)) as [st'|e] eqn:E.
  - exfalso. apply Hbad, (for_loop_ok_iff _ 1 init). eauto.
  - exists e. now rewrite Hfs.
Qed.

Lemma late_failure_leaves_partial_file_witness :
  let segments := [seg 0 1 "One."; seg 1 2 "Two."; seg 2 3 "Three.";
                   seg 3 infinity "Four.";
                   seg 4 5 "Five."; seg 5 6 "Six."; seg 6 7 "Seven."] in
  map index (written_cues segments) = [1; 2; 3]
  /\ exists e,
       main_tail segments "o.srt" ∅
       = (<["o.srt"%string :=
              foldr (fun c acc => (render_cue c +:+ acc)%string)
                EmptyString (written_cues segments)]> ∅,
          Open "o.srt" :: fst (for_loop 1 segments init) ++ [Close],
          Uncaught e).
Proof.
  intros segments. split; [reflexivity|].
  apply (late_failure_leaves_partial_file segments "o.srt" ∅).
  - repeat constructor.
  - intros H. rewrite Forall_forall in H.
    assert (Hin : seg 3 infinity "Four." ∈ segments)
      by (apply list_elem_of_In; simpl; tauto).
    specialize (H _ Hin). discriminate H.
Defined.

(* ================================================================= *)
(** ** The timestamp as a string *)

Local Open Scope Z_scope.

Lemma uint_of_str_of_Z (n : Z) :
  NilEmpty.uint_of_string (str_of_Z n) = Some (N.to_uint (Z.to_N n)).
Proof. unfold str_of_Z. apply NilEmpty.usu. Qed.

Lemma value_zeros (k : nat) (s : string) :
  option_map N.of_uint (NilEmpty.uint_of_string (zeros k +:+ s))
  = option_map N.of_uint (NilEmpty.uint_of_string s).
Proof.
  induction k as [|k IH]; [done|].
  change (zeros (S k) +:+ s)%string with (String "0" (zeros k +:+ s)).
  cbn [NilEmpty.uint_of_string]. rewrite <- IH.
  now destruct (NilEmpty.uint_of_string (zeros k +:+ s)).
Qed.

(** The number can be read back from a zero-padded field. *)
Lemma format_0d_value (w : nat) (n : Z) :
  option_map N.of_uint (NilEmpty.uint_of_string (format_0d w n))
  = Some (Z.to_N n).
Proof.
  unfold format_0d. rewrite value_zeros, uint_of_str_of_Z. simpl.
  now rewrite DecimalN.Unsigned.of_to.
Qed.

Lemma format_0d_inj (w : nat) (a b : Z) :
  0 <= a -> 0 <= b -> format_0d w a = format_0d w b -> a = b.
Proof.
  intros Ha Hb E. pose proof (format_0d_value w a) as Va.
  rewrite E, format_0d_value in Va. injection Va as Va. lia.
Qed.

Lemma string_app_inj_prefix (x x' y y' : string) :
  String.length x = String.length x' ->
  (x +:+ y = x' +:+ y')%string -> x = x' /\ y = y'.
Proof.
  revert x'. induction x as [|c x IH]; intros [|c' x'] Hl E;
    try discriminate Hl; [done|].
  change (String c (x +:+ y) = String c' (x' +:+ y'))%string in E.
  injection E as -> E. injection Hl as Hl.
  destruct (IH x' Hl E) as [-> ->]. done.
Qed.

Lemma string_app_inj_suffix (x x' y y' : string) :
  String.length y = String.length y' ->
  (x +:+ y = x' +:+ y')%string -> x = x' /\ y = y'.
Proof.
  intros Hl E. apply string_app_inj_prefix; [|done].
  pose proof (f_equal String.length E) as H.
  rewrite !string_app_length in H. lia.
Qed.

Lemma string_sep_inj (c : ascii) (x y : string) :
  (String c EmptyString +:+ x = String c EmptyString +:+ y)%string -> x = y.
Proof. intros H. injection H as H. exact H. Qed.

Lemma field2_length (n : Z) :
  0 <= n < 100 -> String.length (format_0d 2 n) = 2%nat.
Proof.
  intros H. rewrite format_0d_length.
  destruct (str_of_Z_below_1000 n ltac:(lia)) as [H1 H2].
  specialize (H2 ltac:(lia)). lia.
Qed.

Lemma field3_length (n : Z) :
  0 <= n < 1000 -> String.length (format_0d 3 n) = 3%nat.
Proof.
  intros H. rewrite format_0d_length.
  destruct (str_of_Z_below_1000 n H) as [H1 _]. lia.
Qed.

(** X12. Different millisecond counts give different timestamps: the
    count can be recovered from the string, so no two instants share a
    rendering, however many digits the hours take. *)
Theorem render_ms_injective (a b : Z) :
  0 <= a -> 0 <= b -> render_ms a = render_ms b -> a = b.
Proof.
  intros Ha Hb E. unfold render_ms in E. cbv zeta in E.
  destruct (render_ms_fields a) as (Am & As & Al & Asum & Ah).
  destruct (render_ms_fields b) as (Bm & Bs & Bl & Bsum & Bh).
  cbv zeta in *.
  pose proof (field2_length (a mod 3600000 / 60000) ltac:(lia)) as La2.
  pose proof (field2_length (a mod 3600000 mod 60000 / 1000) ltac:(lia)) as La3.
  pose proof (field3_length (a mod 3600000 mod 60000 mod 1000) Al) as La4.
  pose proof (field2_length (b mod 3600000 / 60000) ltac:(lia)) as Lb2.
  pose proof (field2_length (b mod 3600000 mod 60000 / 1000) ltac:(lia)) as Lb3.
  pose proof (field3_length (b mod 3600000 mod 60000 mod 1000) Bl) as Lb4.
  apply string_app_inj_suffix in E as [Eh E].
  2:{ rewrite !string_app_length, La2, La3, La4, Lb2, Lb3, Lb4.
      reflexivity. }
  apply string_sep_inj in E.
  apply string_app_inj_prefix in E as [Em E]; [|now rewrite La2, Lb2].
  apply string_sep_inj in E.
  apply string_app_inj_prefix in E as [Es E]; [|now rewrite La3, Lb3].
  apply string_sep_inj in E.
  apply format_0d_inj in Eh; [|lia|lia].
  apply format_0d_inj in Em; [|lia|lia].
  apply format_0d_inj in Es; [|lia|lia].
  apply format_0d_inj in E; [|lia|lia].
  lia.
Qed.

Lemma render_ms_injective_witness :
  0 <= 3725432 /\ 0 <= 3725433
  /\ render_ms 3725432 <> render_ms 3725433.
Proof.
  split; [lia|]. split; [lia|].
  intros E. pose proof (render_ms_injective 3725432 3725433
                          ltac:(lia) ltac:(lia) E). lia.
Defined.

(** X13. Below one hundred hours the timestamp has the fixed SRT shape:
    twelve characters, with the colons in columns 2 and 5 and the comma
    in column 8. *)
Theorem render_ms_fixed_columns (ms : Z) :
  0 <= ms < 360000000 ->
  String.length (render_ms ms) = 12%nat
  /\ String.get 2 (render_ms ms) = Some ":"%char
  /\ String.get 5 (render_ms ms) = Some ":"%char
  /\ String.get 8 (render_ms ms) = Some ","%char.
Proof.
  intros H.
  destruct (render_ms_fields ms) as (Hm & Hs & Hl & Hsum & _). cbv zeta in *.
  assert (Hh : 0 <= ms / 3600000 < 100).
  { split; [apply Z.div_pos; lia|].
    apply Z.div_lt_upper_bound; lia. }
  pose proof (field2_length _ Hh) as L1.
  pose proof (field2_length (ms mod 3600000 / 60000) ltac:(lia)) as L2.
  pose proof (field2_length (ms mod 3600000 mod 60000 / 1000) ltac:(lia)) as L3.
  pose proof (field3_length (ms mod 3600000 mod 60000 mod 1000) Hl) as L4.
  unfold render_ms. cbv zeta.
  set (h := format_0d 2 (ms / 3600000)) in *.
  set (m := format_0d 2 (ms mod 3600000 / 60000)) in *.
  set (s := format_0d 2 (ms mod 3600000 mod 60000 / 1000)) in *.
  set (l := format_0d 3 (ms mod 3600000 mod 60000 mod 1000)) in *.
  clearbody h m s l.
  destruct h as [|h1 [|h2 [|? ?]]]; try discriminate L1.
  destruct m as [|m1 [|m2 [|? ?]]]; try discriminate L2.
  destruct s as [|s1 [|s2 [|? ?]]]; try discriminate L3.
  destruct l as [|l1 [|l2 [|l3 [|? ?]]]]; try discriminate L4.
  repeat split.
Qed.

Lemma render_ms_fixed_columns_witness :
  0 <= 3725432 < 360000000
  /\ String.length (render_ms 3725432) = 12%nat
  /\ String.get 2 (render_ms 3725432) = Some ":"%char
  /\ String.get 5 (render_ms 3725432) = Some ":"%char
  /\ String.get 8 (render_ms 3725432) = Some ","%char.
Proof.
  assert (H : 0 <= 3725432 < 360000000) by lia.
  split; [exact H|]. exact (render_ms_fixed_columns 3725432 H).
Defined.

(* ================================================================= *)
(** ** The default output path *)

Local Open Scope nat_scope.

Lemma substring_all (p : string) : String.substring 0 (String.length p) p = p.
Proof. induction p as [|c r IH]; simpl; [done|]. now rewrite IH. Qed.

Lemma substring_split (p : string) (k : nat) :
  (String.substring 0 k p
   +:+ String.substring k (String.length p - k) p)%string = p.
Proof.
  revert k. induction p as [|c r IH]; intros k.
  - now destruct k.
  - destruct k as [|k].
    + simpl String.substring. now rewrite substring_all.
    + simpl String.substring. simpl String.length.
      change (String c (String.substring 0 k r
                        +:+ String.substring k (String.length r - k) r)
              = String c r)%string.
      now rewrite IH.
Qed.

(** [rfind_from] finds the last occurrence, counted from [i]. *)
Lemma rfind_from_spec (c : ascii) (p : string) (i : Z) :
  (0 <= i)%Z ->
  (rfind_from c p i = (-1)%Z
   /\ forall j, String.get j p <> Some c)
  \/ (exists k, rfind_from c p i = (i + Z.of_nat k)%Z
      /\ String.get k p = Some c
      /\ forall j, k < j -> String.get j p <> Some c).
Proof.
  revert i. induction p as [|x r IH]; intros i Hi; simpl.
  - left. split; [done|]. intros j. now destruct j.
  - destruct (IH (i + 1)%Z ltac:(lia)) as [[E Hno]|(k & E & Hk & Hafter)];
      rewrite E.
    + simpl. destruct (Ascii.eqb x c) eqn:Ex.
      * right. exists 0. apply Ascii.eqb_eq in Ex. subst x.
        split; [f_equal; lia|]. split; [done|].
        intros [|j] Hj; [lia|]. apply Hno.
      * left. split; [done|]. intros [|j]; [|apply Hno].
        intros [= ->]. now rewrite Ascii.eqb_refl in Ex.
    + replace (0 <=? i + 1 + Z.of_nat k)%Z with true
        by (symmetry; apply Z.leb_le; lia).
      right. exists (S k). split; [lia|]. split; [done|].
      intros [|j] Hj; [lia|]. apply Hafter. lia.
Qed.

Lemma rfind_spec (c : ascii) (p : string) :
  (rfind c p = (-1)%Z /\ forall j, String.get j p <> Some c)
  \/ (exists k, rfind c p = Z.of_nat k
      /\ String.get k p = Some c
      /\ forall j, k < j -> String.get j p <> Some c).
Proof.
  destruct (rfind_from_spec c p 0 ltac:(lia)) as [H|(k & E & H)];
    [now left|right].
  exists k. split; [exact E|exact H].
Qed.

Lemma get_Some_lt (p : string) (k : nat) (c : ascii) :
  String.get k p = Some c -> k < String.length p.
Proof.
  revert k. induction p as [|x r IH]; intros [|k]; simpl;
    try discriminate; [lia|].
  intros H. apply IH in H. lia.
Qed.

(** The extension that [splitext] cuts off: nothing, or a dot followed by
    characters among which there is neither a dot nor a slash. *)
Lemma splitext_ext (p : string) :
  snd (splitext p) = EmptyString
  \/ (String.get 0 (snd (splitext p)) = Some "."%char
      /\ forall j c, String.get j (snd (splitext p)) = Some c ->
           c <> "/"%char /\ (c = "."%char -> j = 0)).
Proof.
  unfold splitext.
  destruct ((rfind "/" p <? rfind "." p)%Z && _) eqn:Hc; [|now left].
  apply andb_true_iff in Hc as [Hlt _]. apply Z.ltb_lt in Hlt.
  right. cbn [snd].
  destruct (rfind_spec "." p) as [[Ed _]|(d & Ed & Hd & Hdafter)].
  { exfalso. destruct (rfind_spec "/" p) as [[Es _]|(s & Es & _)]; lia. }
  rewrite Ed, Nat2Z.id in *.
  pose proof (get_Some_lt _ _ _ Hd) as Hdl.
  assert (Hget : forall j, j < String.length p - d ->
            String.get j (String.substring d (String.length p - d) p)
            = String.get (j + d) p).
  { intros j Hj. now apply substring_correct1. }
  split.
  - rewrite Hget by lia. exact Hd.
  - intros j c Hj.
    destruct (Nat.lt_ge_cases j (String.length p - d)) as [Hlt'|Hge].
    2:{ rewrite substring_correct2 in Hj by lia. discriminate. }
    rewrite Hget in Hj by lia. split.
    + intros ->.
      destruct (rfind_spec "/" p) as [[_ Hno]|(s & Es & _ & Hsafter)].
      * exact (Hno _ Hj).
      * apply (Hsafter (j + d)); [lia|exact Hj].
    + intros ->. destruct j as [|j]; [done|].
      exfalso. apply (Hdafter (S j + d)); [lia|exact Hj].
Qed.

Lemma splitext_join (p : string) :
  (fst (splitext p) +:+ snd (splitext p))%string = p.
Proof.
  unfold splitext. destruct (_ && _); cbn [fst snd].
  - apply substring_split.
  - apply string_app_nil_r.
Qed.

(** X14. The output path of [main]. A non-empty [--output] is taken as it
    is. Otherwise the path is the input path with its extension replaced
    by ".srt": the input is [root ++ ext] where [ext] is empty or a dot
    followed by characters without a dot or a slash, so the directory is
    kept, and the output is [root ++ ".srt"]. An input that already ends
    in the extension ".srt" is therefore its own output path. *)
Theorem output_path_replaces_extension (output : option string)
    (input : string) :
  (forall o, output = Some o -> o <> EmptyString ->
     out_srt_path output input = o)
  /\ (output = None \/ output = Some EmptyString ->
      out_srt_path output input
      = (fst (splitext input) +:+ ".srt")%string
      /\ input = (fst (splitext input) +:+ snd (splitext input))%string
      /\ (snd (splitext input) = EmptyString
          \/ (String.get 0 (snd (splitext input)) = Some "."%char
              /\ forall j c, String.get j (snd (splitext input)) = Some c ->
                   c <> "/"%char /\ (c = "."%char -> j = 0)))
      /\ (snd (splitext input) = ".srt"%string ->
          out_srt_path output input = input)).
Proof.
  split.
  - intros o -> Ho. unfold out_srt_path. now destruct o.
  - intros H.
    assert (E : out_srt_path output input
                = (fst (splitext input) +:+ ".srt")%string).
    { destruct H as [->| ->]; reflexivity. }
    split; [exact E|]. split; [symmetry; apply splitext_join|].
    split; [apply splitext_ext|].
    intros Hext. rewrite E, <- Hext. apply splitext_join.
Qed.

Lemma output_path_replaces_extension_witness :
  out_srt_path None "clips/talk.v2.mp4" = "clips/talk.v2.srt"%string
  /\ snd (splitext "clips/talk.srt") = ".srt"%string
  /\ out_srt_path None "clips/talk.srt" = "clips/talk.srt"%string
  /\ out_srt_path (Some "x.txt"%string) "clips/talk.mp4" = "x.txt"%string.
Proof.
  assert (Hext : snd (splitext "clips/talk.srt") = ".srt"%string)
    by reflexivity.
  split; [reflexivity|]. split; [exact Hext|]. split.
  - exact (proj2 (proj2 (proj2 (proj2
             (output_path_replaces_extension None "clips/talk.srt")
             (or_introl eq_refl)))) Hext).
  - apply (proj1 (output_path_replaces_extension (Some "x.txt"%string)
                    "clips/talk.mp4")); [reflexivity|discriminate].
Defined.

(* ================================================================= *)
(** ** The state machine and the history of texts *)

Local Open Scope nat_scope.

Lemma tracks_same (st : loop_state) (history : list string) (t : string) :
  tracks st history -> is_meaningful t = true ->
  same_as_prev (prev_text st) t = true ->
  run_of t history = S (repeat_count st)
  /\ prev_text st = Some t.
Proof.
  intros Htr Hm Hs. apply same_as_prev_true in Hs.
  destruct history as [|u h]; simpl in Htr; [congruence|].
  destruct Htr as (Hp & _ & Hr). rewrite Hp in Hs. injection Hs as ->.
  split; [exact Hr|exact Hp].
Qed.

Lemma tracks_diff (st : loop_state) (history : list string) (t : string) :
  tracks st history -> is_meaningful t = true ->
  same_as_prev (prev_text st) t = false ->
  run_of t history = 0.
Proof.
  intros Htr Hm Hs. destruct history as [|u h]; [done|].
  destruct Htr as (Hp & Hu & _). simpl.
  destruct (String.eqb u t) eqn:E; [|done].
  apply String.eqb_eq in E. subst u. rewrite Hp in Hs. simpl in Hs.
  now rewrite (meaningful_truthy _ Hm), String.eqb_refl in Hs.
Qed.

Lemma loop_by_history (segs : list Segment) (i : nat) (st : loop_state)
    (history : list string) :
  Forall (fun s => timestamps_ok s = true) segs ->
  tracks st history ->
  fst (for_loop i segs st) = events_by_history history i segs.
Proof.
  revert i st history.
  induction segs as [|s segs IH]; intros i st history Hts Htr; [done|].
  apply Forall_cons in Hts as [Hs Hts]. cbn [for_loop events_by_history].
  destruct (is_meaningful (trimmed s)) eqn:Hm.
  - rewrite body_keep by done.
    destruct (same_as_prev (prev_text st) (trimmed s)) eqn:Hsame.
    + destruct (tracks_same _ _ _ Htr Hm Hsame) as [Hr Hp]. rewrite Hr.
      destruct (3 <=? S (repeat_count st)) eqn:Hrc.
      * apply Nat.leb_le in Hrc.
        replace (S (repeat_count st) <? 3) with false
          by (symmetry; apply Nat.ltb_ge; lia).
        rewrite <- (IH (S i) (mk_state (prev_text st) (S (repeat_count st)))
                      (trimmed s :: history) Hts).
        2:{ simpl. rewrite String.eqb_refl, Hr. done. }
        now destruct (for_loop (S i) segs _).
      * apply Nat.leb_gt in Hrc.
        replace (S (repeat_count st) <? 3) with true
          by (symmetry; apply Nat.ltb_lt; lia).
        rewrite <- (IH (S i) (mk_state (Some (trimmed s)) (S (repeat_count st)))
                      (trimmed s :: history) Hts).
        2:{ simpl. rewrite String.eqb_refl, Hr. done. }
        now destruct (for_loop (S i) segs _).
    + rewrite (tracks_diff _ _ _ Htr Hm Hsame). cbn [Nat.ltb Nat.leb].
      rewrite <- (IH (S i) (mk_state (Some (trimmed s)) 0)
                    (trimmed s :: history) Hts).
      2:{ simpl. rewrite String.eqb_refl.
          now rewrite (tracks_diff _ _ _ Htr Hm Hsame). }
      now destruct (for_loop (S i) segs _).
  - destruct (body_skip i s st Hm) as [[e He]|He].
    + exfalso. apply andb_true_iff in Hs as [H1 H2]. unfold body in He.
      rewrite (stamp_ok _ H1), (stamp_ok _ H2) in He. simpl in He.
      rewrite Hm in He. discriminate.
    + rewrite He, <- (IH (S i) st history Hts Htr).
      now destruct (for_loop (S i) segs st).
Qed.

(** X15. What the two loop variables compute. When all timestamps can be
    formatted, the events of [write_srt] are those of a description that
    keeps the meaningful texts met so far instead of [prev_text] and
    [repeat_count]: a segment that fails the filter does nothing; a
    meaningful segment is written when fewer than three meaningful
    segments directly before it, filtered ones not counted, carry its
    text, prints the warning when exactly three do, and is dropped in
    silence when more do. *)
Theorem loop_counts_preceding_equal_texts (segments : list Segment) :
  Forall (fun s => timestamps_ok s = true) segments ->
  fst (for_loop 1 segments init) = events_by_history [] 1 segments
  /\ written_cues segments = cues (events_by_history [] 1 segments).
Proof.
  intros Hts.
  assert (E : fst (for_loop 1 segments init)
              = events_by_history [] 1 segments)
    by (now apply loop_by_history).
  split; [exact E|]. unfold written_cues. now rewrite E.
Qed.

Lemma loop_counts_preceding_equal_texts_witness :
  let segments := [seg 0 1 "Yes."; seg 1 2 "Yes."; seg 2 3 "uh";
                   seg 3 4 "Yes."; seg 4 5 "YES."; seg 5 6 "Yes.";
                   seg 6 7 "Yes."] in
  Forall (fun s => timestamps_ok s = true) segments
  /\ fst (for_loop 1 segments init) = events_by_history [] 1 segments
  /\ map index (written_cues segments) = [1; 2; 4; 5; 6; 7].
Proof.
  intros segments.
  assert (Hts : Forall (fun s => timestamps_ok s = true) segments)
    by (repeat constructor).
  split; [exact Hts|]. split; [|reflexivity].
  exact (proj1 (loop_counts_preceding_equal_texts segments Hts)).
Defined.

(** X16. Only short texts can be dropped by the filter: a text whose
    trimmed form has more than five characters always passes, since the
    longest filler has five. *)
Theorem long_text_is_meaningful (t : string) :
  5 < String.length (strip t) -> is_meaningful t = true.
Proof.
  intros Hl. unfold is_meaningful.
  assert (Ht : truthy t = true).
  { destruct t; [simpl in Hl; lia|done]. }
  rewrite Ht. cbn [negb orb].
  replace (String.length (strip t) <? 3) with false
    by (symmetry; apply Nat.ltb_ge; lia).
  destruct (str_in (lower (strip t)) fillers) eqn:Hin; [|done].
  apply str_in_In in Hin. pose proof (lower_length (strip t)) as L.
  unfold fillers in Hin. simpl in Hin.
  destruct Hin as [H|[H|[H|[H|[H|[]]]]]]; rewrite <- H in L; simpl in L; lia.
Qed.

Lemma long_text_is_meaningful_witness :
  5 < String.length (strip "  Hmmmm. ")
  /\ is_meaningful "  Hmmmm. " = true.
Proof.
  assert (H : 5 < String.length (strip "  Hmmmm. ")) by (vm_compute; lia).
  split; [exact H|]. exact (long_text_is_meaningful _ H).
Defined.
